(** * electrum-seeder: brain seeds with a mined version tag

    A shallow embedding of [src/index.js] (randomBrainSeed, checkSeed,
    seedVersion, assertValidSeed, bnToSeed) together with the hash
    primitives the module obtains from [create-hash] and [create-hmac]
    (SHA-256, SHA-512 and HMAC, after FIPS 180-4 and RFC 2104), and the
    properties of the generation / validation contract.

    Conventions of the embedding:
    - a JavaScript string is a [string], read as the sequence of bytes of
      its UTF-8 text (all the strings the module inspects character by
      character, versions and hex digests, are ASCII);
    - a [Buffer] is a [list byte];
    - a [BN] big number and an integral JavaScript number are a [Z];
    - a call that may throw returns an [outcome];
    - the functions of [bip39-checker] (normalize, checkWords,
      validWordlist) are the fields of the class [Bip39Checker], and the
      secure random source is an argument of [randomBrainSeed];
    - the two loops are followed for a bounded number of iterations, with
      lemmas that say when the bound is never met. *)

From Stdlib Require Import String Ascii Strings.Byte DecimalString.
From Stdlib Require Import ZArith Bool Lia Arith List.
Import ListNotations.

Local Open Scope string_scope.
Local Open Scope list_scope.
Local Open Scope Z_scope.

(** ** Bytes and hexadecimal text *)

Module Bytes.

Definition to_Z (b : byte) : Z := Z.of_N (Byte.to_N b).

Definition of_Z (z : Z) : byte :=
  match Byte.of_N (Z.to_N (z mod 256)) with
  | Some b => b
  | None => x00
  end.

(** UTF-8 bytes of a text, as [Buffer.from(text)] gives them. *)
Definition of_string (s : string) : list byte := list_byte_of_string s.

Definition hex_digit (n : Z) : ascii :=
  if n <? 10 then ascii_of_N (Z.to_N (48 + n)) else ascii_of_N (Z.to_N (87 + n)).

(** [buf.toString('hex')] / [digest('hex')]: two lowercase digits a byte. *)
Fixpoint to_hex (bs : list byte) : string :=
  match bs with
  | [] => EmptyString
  | b :: rest =>
      String (hex_digit (to_Z b / 16)) (String (hex_digit (to_Z b mod 16)) (to_hex rest))
  end.

(** Big-endian unsigned value of a buffer. *)
Definition be_value (bs : list byte) : Z :=
  fold_left (fun acc b => acc * 256 + to_Z b) bs 0.

(** The [n] low-order bytes of [x], most significant first. *)
Definition be_bytes (n : nat) (x : Z) : list byte :=
  map (fun i => of_Z (Z.shiftr x (8 * Z.of_nat (n - 1 - i)))) (seq 0 n).

Fixpoint chunks (fuel : nat) (size : nat) (bs : list byte) : list (list byte) :=
  match fuel, bs with
  | O, _ | _, [] => []
  | S fuel', _ => firstn size bs :: chunks fuel' size (skipn size bs)
  end.

End Bytes.

(** ** SHA-2 and HMAC

    [create-hash] and [create-hmac] are the Node.js hash primitives; they
    are modelled by the functions of FIPS 180-4 (SHA-256, SHA-512) and of
    RFC 2104 (HMAC). *)

Module Sha2.

Record state := State { sa : Z; sb : Z; sc : Z; sd : Z; se : Z; sf : Z; sg : Z; sh : Z }.

(** The constants are the leading fractional bits of square and cube roots
    of the first primes (FIPS 180-4, 4.2.2, 4.2.3, 5.3.3, 5.3.5). *)
Definition is_prime (n : nat) : bool :=
  forallb (fun d => negb (Nat.eqb (n mod d) 0)) (seq 2 (n - 2)).

Definition primes (count : nat) : list Z :=
  map Z.of_nat (firstn count (filter is_prime (seq 2 420))).

Fixpoint cube_root_bits (bits : nat) (n r : Z) : Z :=
  match bits with
  | O => r
  | S b =>
      let c := r + 2 ^ Z.of_nat b in
      cube_root_bits b n (if c * c * c <=? n then c else r)
  end.

Definition frac_cube_root (w p : Z) : Z :=
  cube_root_bits (Z.to_nat w + 4) (p * 2 ^ (3 * w)) 0 mod 2 ^ w.

Definition frac_sqrt (w p : Z) : Z := Z.sqrt (p * 2 ^ (2 * w)) mod 2 ^ w.

Section Generic.

Variable w : Z.                       (* word size in bits *)
Variable mask : Z.                    (* 2 ^ w - 1, the largest word *)
Variable K : list Z.                  (* round constants, one a round *)
Variable H0 : state.                  (* initial hash value *)
Variables bigS0 bigS1 : Z * Z * Z.    (* rotations of the Sigma functions *)
Variables smallS0 smallS1 : Z * Z * Z.  (* two rotations and a shift *)

Definition add (x y : Z) : Z := Z.land (x + y) mask.
Definition rotr (n x : Z) : Z :=
  Z.lor (Z.shiftr x n) (Z.land (Z.shiftl x (w - n)) mask).
Definition shr (n x : Z) : Z := Z.shiftr x n.
Definition Ch (x y z : Z) : Z :=
  Z.lxor (Z.land x y) (Z.land (Z.lxor x mask) z).
Definition Maj (x y z : Z) : Z :=
  Z.lxor (Z.lxor (Z.land x y) (Z.land x z)) (Z.land y z).
Definition Sigma (r : Z * Z * Z) (x : Z) : Z :=
  let '(a, b, c) := r in Z.lxor (Z.lxor (rotr a x) (rotr b x)) (rotr c x).
Definition sigma (r : Z * Z * Z) (x : Z) : Z :=
  let '(a, b, c) := r in Z.lxor (Z.lxor (rotr a x) (rotr b x)) (shr c x).

Definition word_bytes : nat := Z.to_nat (w / 8).
Definition block_bytes : nat := (16 * word_bytes)%nat.

(** Padding (5.1): a 1 bit, zeros, and the bit length on two words. *)
Definition pad (msg : list byte) : list byte :=
  let len := Z.of_nat (length msg) in
  let blk := Z.of_nat block_bytes in
  let zeros := (blk - (len + 1 + 2 * Z.of_nat word_bytes) mod blk) mod blk in
  msg ++ x80 :: repeat x00 (Z.to_nat zeros)
      ++ Bytes.be_bytes (2 * word_bytes) (8 * len).

(** Message schedule (6.2.2, 6.4.2 step 1), most recent word first. *)
Fixpoint extend (n : nat) (rev_w : list Z) : list Z :=
  match n with
  | O => rev_w
  | S n' =>
      let wt := add (add (sigma smallS1 (nth 1 rev_w 0)) (nth 6 rev_w 0))
                    (add (sigma smallS0 (nth 14 rev_w 0)) (nth 15 rev_w 0)) in
      extend n' (wt :: rev_w)
  end.

Definition schedule (block : list byte) : list Z :=
  let m := map Bytes.be_value (Bytes.chunks 16 word_bytes block) in
  rev (extend (length K - 16) (rev m)).

Definition round (s : state) (kw : Z * Z) : state :=
  let '(k, wt) := kw in
  let t1 := add (add (add (sh s) (Sigma bigS1 (se s))) (Ch (se s) (sf s) (sg s)))
                (add k wt) in
  let t2 := add (Sigma bigS0 (sa s)) (Maj (sa s) (sb s) (sc s)) in
  State (add t1 t2) (sa s) (sb s) (sc s) (add (sd s) t1) (se s) (sf s) (sg s).

Definition compress (h : state) (block : list byte) : state :=
  let s := fold_left round (combine K (schedule block)) h in
  State (add (sa h) (sa s)) (add (sb h) (sb s)) (add (sc h) (sc s))
        (add (sd h) (sd s)) (add (se h) (se s)) (add (sf h) (sf s))
        (add (sg h) (sg s)) (add (sh h) (sh s)).

Definition state_bytes (s : state) : list byte :=
  flat_map (Bytes.be_bytes word_bytes)
           [sa s; sb s; sc s; sd s; se s; sf s; sg s; sh s].

Definition hash (msg : list byte) : list byte :=
  let padded := pad msg in
  state_bytes (fold_left compress
                         (Bytes.chunks (length padded) block_bytes padded) H0).

(** HMAC (RFC 2104) over [hash]. *)
Definition xor_pad (c : Z) (key : list byte) : list byte :=
  map (fun b => Bytes.of_Z (Z.lxor (Bytes.to_Z b) c)) key.

Definition hmac (key msg : list byte) : list byte :=
  let k0 := if (block_bytes <? length key)%nat then hash key else key in
  let k := k0 ++ repeat x00 (block_bytes - length k0) in
  hash (xor_pad 92 k ++ hash (xor_pad 54 k ++ msg)).

End Generic.

Definition state_of_list (l : list Z) : state :=
  State (nth 0 l 0) (nth 1 l 0) (nth 2 l 0) (nth 3 l 0)
        (nth 4 l 0) (nth 5 l 0) (nth 6 l 0) (nth 7 l 0).

Definition K256 : list Z := Eval vm_compute in map (frac_cube_root 32) (primes 64).
Definition H256 : state := Eval vm_compute in state_of_list (map (frac_sqrt 32) (primes 8)).
Definition K512 : list Z := Eval vm_compute in map (frac_cube_root 64) (primes 80).
Definition H512 : state := Eval vm_compute in state_of_list (map (frac_sqrt 64) (primes 8)).

Definition mask32 : Z := Eval vm_compute in 2 ^ 32 - 1.
Definition mask64 : Z := Eval vm_compute in 2 ^ 64 - 1.

Definition sha256 : list byte -> list byte :=
  hash 32 mask32 K256 H256 (2, 13, 22) (6, 11, 25) (7, 18, 3) (17, 19, 10).

Definition sha512 : list byte -> list byte :=
  hash 64 mask64 K512 H512 (28, 34, 39) (14, 18, 41) (1, 8, 7) (19, 61, 6).

Definition hmac_sha512 : list byte -> list byte -> list byte :=
  hmac 64 mask64 K512 H512 (28, 34, 39) (14, 18, 41) (1, 8, 7) (19, 61, 6).

End Sha2.

(** ** JavaScript values, strings and control *)

Module Js.

(** Result of running a piece of JavaScript: it returns, it throws an
    [Error] carrying [message], or it never finishes. *)
Inductive outcome (A : Type) : Type :=
| Returns (a : A)
| Throws (message : string)
| Diverges.
Arguments Returns {A} a.
Arguments Throws {A} message.
Arguments Diverges {A}.

Definition bind {A B} (m : outcome A) (k : A -> outcome B) : outcome B :=
  match m with
  | Returns a => k a
  | Throws message => Throws message
  | Diverges => Diverges
  end.

(** [try { body } catch (err) { handler(err.message) }] *)
Definition try_catch {A} (body : outcome A) (handler : string -> outcome A) : outcome A :=
  match body with
  | Throws message => handler message
  | other => other
  end.

(** What a caller may pass where a string is expected. *)
Inductive value :=
| Null
| Undefined
| Str (s : string)
| Other.

Definition MAX_SAFE_INTEGER : Z := 9007199254740991.

Definition lower_char (c : ascii) : ascii :=
  let n := N_of_ascii c in
  if ((65 <=? n) && (n <=? 90))%N then ascii_of_N (n + 32) else c.

(** [s.toLowerCase()] on ASCII letters. *)
Fixpoint toLowerCase (s : string) : string :=
  match s with
  | EmptyString => EmptyString
  | String c rest => String (lower_char c) (toLowerCase rest)
  end.

(** [s.substring(0, n)]: a negative [n] counts as 0, a large one as the
    length. *)
Definition substring0 (s : string) (n : Z) : string :=
  String.substring 0 (Z.to_nat n) s.

(** [s.split(' ')] *)
Fixpoint split (s : string) : list string :=
  match s with
  | EmptyString => [EmptyString]
  | String c rest =>
      if Ascii.eqb c " " then EmptyString :: split rest
      else match split rest with
           | word :: words => String c word :: words
           | [] => [String c EmptyString]
           end
  end.

(** [words.join(' ')] *)
Definition join (words : list string) : string := String.concat " " words.

(** [buf.slice(0, n)]: a negative [n] counts from the end. *)
Definition slice0 {A} (buf : list A) (n : Z) : list A :=
  if n <? 0 then firstn (length buf - Z.to_nat (- n)) buf
  else firstn (Z.to_nat n) buf.

(** A number inside a template literal. *)
Definition show_nat (n : nat) : string := NilEmpty.string_of_uint (Nat.to_uint n).

(** An empty string is falsy. *)
Definition truthy (s : string) : bool := negb (String.eqb s EmptyString).

(** [/needle/.test(s)] for a pattern of plain characters: does [needle]
    occur in [s]. *)
Fixpoint includes (needle s : string) : bool :=
  String.prefix needle s
  || match s with
     | EmptyString => false
     | String _ rest => includes needle rest
     end.

(** [Math.ceil(n / d)] on integers, [d > 0]. *)
Definition ceil_div (n d : Z) : Z := (n + d - 1) / d.

End Js.

Import Js.

Notation "x <- m ;; k" := (Js.bind m (fun x => k))
  (at level 61, m at next level, right associativity).

(** ** The seeder module *)

(** The functions imported from [bip39-checker]. *)
Class Bip39Checker := {
  (** canonical form of a phrase; throws unless given a string *)
  normalize : value -> outcome string;
  (** are all the words of a phrase in the word list of a language *)
  checkWords : string -> string -> outcome bool;
  (** the word list of a language; throws for an unknown language *)
  validWordlist : string -> outcome (list string)
}.

(** [config.entropy], when it is truthy: a string, a buffer, an array of
    integers, or a value of another type, which the hash rejects with an
    error of its own; [message] is the message of that error. *)
Inductive Entropy :=
| EntropyString (s : string)
| EntropyBuffer (b : list byte)
| EntropyArray (ints : list Z)
| EntropyOther (message : string).

(** The recognised options; [None] is a missing key. *)
Record Config := {
  entropy : option Entropy;
  version : option string;
  bits : option Z;
  language : option string
}.

Record Validity := { valid : bool; error : option string }.

Definition DEFAULT_VERSION : string := "01".

Definition or_default {A} (o : option A) (d : A) : A :=
  match o with Some a => a | None => d end.

(** [new BN(buf)] reads a buffer as a big-endian number, [x.shrn(k)] shifts
    right. *)
Definition BN_of_buffer (buf : list byte) : Z := Bytes.be_value buf.
Definition shrn (x k : Z) : Z := Z.shiftr x k.

(** [seedVersion (brainSeed, {versionLength = DEFAULT_VERSION.length} = {})] *)
Definition seedVersion (brainSeed : string) (versionLength : option Z) : string :=
  let versionLength := or_default versionLength (Z.of_nat (String.length DEFAULT_VERSION)) in
  let key := "Seed version" in
  substring0
    (Bytes.to_hex (Sha2.hmac_sha512 (Bytes.of_string key) (Bytes.of_string brainSeed)))
    versionLength.

(** [wordlist[idx]]; an index outside the list gives [undefined], which
    [join] prints as the empty string. *)
Definition element (wordlist : list string) (idx : Z) : string :=
  if idx <? 0 then EmptyString else nth (Z.to_nat idx) wordlist EmptyString.

(** The [while] loop of [bnToSeed]. [BN.mod] and [BN.div] truncate towards
    zero and reject a zero divisor. The loop has no bound of its own:
    [fuel] counts the iterations the model follows. *)
Fixpoint bnToSeed_loop (fuel : nat) (wordlist : list string) (totalWordLen i : Z)
    (words : list string) : outcome (list string) :=
  match fuel with
  | O => Diverges
  | S fuel' =>
      if i =? 0 then Returns words
      else if totalWordLen =? 0 then Throws "Assertion failed"
      else
        let idx := Z.rem i totalWordLen in
        bnToSeed_loop fuel' wordlist totalWordLen (Z.quot i totalWordLen)
                      (words ++ [element wordlist idx])
  end.

(** Iterations followed for [i]: its bit length and one more, which is enough
    whenever the word list has two words or more
    ([bnToSeed_loop_returns]). *)
Definition bnToSeed_fuel (i : Z) : nat := (Z.to_nat (Z.log2 (Z.abs i)) + 2)%nat.

Section Seeder.

Context {lib : Bip39Checker}.

Definition bnToSeed_words (i : Z) (language : string) : outcome (list string) :=
  wordlist <- validWordlist language ;;
  let totalWordLen := Z.of_nat (length wordlist) in
  bnToSeed_loop (bnToSeed_fuel i) wordlist totalWordLen i [].

Definition bnToSeed (i : Z) (language : string) : outcome string :=
  words <- bnToSeed_words i language ;;
  Returns (join words).

(** The condition of the [if] inside the mining loop. *)
Definition version_found (brainSeed version : string) : bool :=
  truthy brainSeed
  && String.eqb (seedVersion brainSeed (Some (Z.of_nat (String.length version)))) version.

(** [for (let nonce = 1; nonce < Number.MAX_SAFE_INTEGER; nonce++)]. The
    guard bounds the loop; [fuel] only makes the recursion structural
    ([mine_fuel_enough]). *)
Fixpoint mine (fuel : nat) (nonce entropyBn : Z) (brainSeed : option string)
    (version language : string) : outcome (option string) :=
  match fuel with
  | O => Diverges
  | S fuel' =>
      if nonce <? MAX_SAFE_INTEGER then
        let entropyBn := entropyBn + nonce in
        seed <- bnToSeed entropyBn language ;;
        if version_found seed version then Returns (Some seed)
        else mine fuel' (nonce + 1) entropyBn (Some seed) version language
      else Returns brainSeed
  end.

(** [Buffer.from(new Int32Array(entropy).buffer)]: four little-endian bytes
    an element. *)
Definition int32_bytes (x : Z) : list byte := rev (Bytes.be_bytes 4 (x mod 2 ^ 32)).

(** What [createHash('sha256').update(entropy)] hashes, [None] when
    [update] rejects the argument. *)
Definition entropy_bytes (e : Entropy) : option (list byte) :=
  match e with
  | EntropyString s => Some (Bytes.of_string s)
  | EntropyBuffer b => Some b
  | EntropyArray ints => Some (flat_map int32_bytes ints)
  | EntropyOther _ => None
  end.

(** The message of the error [update] throws for the entropy it rejects. *)
Definition update_error (e : option Entropy) : string :=
  match e with
  | Some (EntropyOther message) => message
  | _ => EmptyString
  end.

(** The [catch] of lines 83 to 88: an error whose message has the words
    [string or a buffer] is replaced, any other is thrown again. *)
Definition entropy_catch (message : string) : string :=
  if includes "string or a buffer" message
  then "entropy parameter must be a string, buffer, or array"
  else message.

Definition entropy_falsy (e : option Entropy) : bool :=
  match e with
  | None => true
  | Some (EntropyString s) => negb (truthy s)
  | Some _ => false
  end.

(** Line 82: [createHash('sha256').update(entropy).update(seedBuf)
    .digest().slice(0, bytes)]. *)
Definition combine_entropy (entropy seedBuf : list byte) (bytes : Z) : list byte :=
  slice0 (Sha2.sha256 (entropy ++ seedBuf)) bytes.

(** Line 91: [new BN(seedBuf).shrn(Math.ceil(bits / 8) * 8 - bits)]. *)
Definition trim_bits (seedBuf : list byte) (bits : Z) : Z :=
  shrn (BN_of_buffer seedBuf) (ceil_div bits 8 * 8 - bits).

(** [randomBrainSeed (config, seedCallback)]. [randomBytes] is the secure
    random source; [seedCallback] tells whether a callback was given.
    [Returns None] is the [undefined] returned when the seed is left to
    the callback. *)
Definition randomBrainSeed (randomBytes : Z -> outcome (list byte))
    (config : Config) (seedCallback : bool) : outcome (option string) :=
  let bits := or_default (bits config) 132 in
  let language := or_default (language config) "english" in
  let version := or_default (version config) DEFAULT_VERSION in
  let bytes := ceil_div bits 8 in
  if entropy_falsy (entropy config) then
    if negb seedCallback then
      Throws "Provide seedCallback parameter unless you plan to provide config.entropy"
    else Returns None
  else
    seedBuf <- randomBytes bytes ;;
    match option_map entropy_bytes (entropy config) with
    | Some (Some entropy) =>
        let seedBuf := combine_entropy entropy seedBuf bytes in
        let entropyBn := trim_bits seedBuf bits in
        let version := toLowerCase version in
        mine (Z.to_nat MAX_SAFE_INTEGER) 1 entropyBn None version language
    | _ => Throws (entropy_catch (update_error (entropy config)))
    end.

(** [assertValidSeed (brainSeed, version = DEFAULT_VERSION, language)] *)
Definition assertValidSeed (brainSeed : string) (version : option string)
    (language : string) : outcome unit :=
  let version := toLowerCase (or_default version DEFAULT_VERSION) in
  ok <- checkWords brainSeed language ;;
  if negb ok then Throws "Invalid brain seed"
  else
    let sv := seedVersion brainSeed (Some (Z.of_nat (String.length version))) in
    if negb (String.eqb sv version) then
      let words := length (split brainSeed) in
      let shortStr :=
        if (words <? 11)%nat
        then (".  Brain seeds are about 12 words but this seed is only "
              ++ show_nat words ++ " words.")%string
        else EmptyString in
      Throws ("Invalid brain seed version, expecting " ++ version ++ " got " ++ sv
              ++ shortStr)%string
    else Returns tt.

(** [checkSeed (brainSeed, {version = DEFAULT_VERSION, language = 'english'}
    = {})] *)
Definition checkSeed (brainSeed : value) (version language : option string)
    : outcome Validity :=
  let version := or_default version DEFAULT_VERSION in
  let language := or_default language "english" in
  try_catch
    (brainSeed <- normalize brainSeed ;;
     _ <- assertValidSeed brainSeed (Some version) language ;;
     Returns {| valid := true; error := None |})
    (fun message => Returns {| valid := false; error := Some message |}).

End Seeder.

(** ** Stretching: [mnemonicToSeed]

    [bip39.mnemonicToSeed] is PBKDF2 (RFC 2898) with HMAC-SHA512, 2048
    iterations, a 64-byte key and the salt [mnemonic] followed by the
    passphrase (BIP-0039). bip39 first brings both texts to the NFKD form;
    the model takes them as already in that form, which is the case of ASCII
    text. *)

Module Pbkdf2.

Definition xor_bytes (a b : list byte) : list byte :=
  map (fun p => Bytes.of_Z (Z.lxor (Bytes.to_Z (fst p)) (Bytes.to_Z (snd p))))
      (combine a b).

(** [U_2 xor ... xor U_c] folded into [t], [u] being the last [U]. *)
Fixpoint iterate (n : nat) (password u t : list byte) : list byte :=
  match n with
  | O => t
  | S n' =>
      let u' := Sha2.hmac_sha512 password u in
      iterate n' password u' (xor_bytes t u')
  end.

(** The block [T_i]. *)
Definition block (password salt : list byte) (iterations : nat) (i : nat) : list byte :=
  let u1 := Sha2.hmac_sha512 password (salt ++ Bytes.be_bytes 4 (Z.of_nat i)) in
  iterate (iterations - 1) password u1 u1.

Definition pbkdf2 (password salt : list byte) (iterations keylen : nat) : list byte :=
  firstn keylen
         (flat_map (block password salt iterations) (seq 1 ((keylen + 63) / 64))).

End Pbkdf2.

Definition bip39_mnemonicToSeed (mnemonic password : string) : list byte :=
  Pbkdf2.pbkdf2 (Bytes.of_string mnemonic)
                (Bytes.of_string ("mnemonic" ++ password)%string) 2048 64.

Section Stretching.

Context {lib : Bip39Checker}.

(** [mnemonicToSeed (brainSeed, passphrase = '')] *)
Definition mnemonicToSeed (brainSeed : value) (passphrase : option string)
    : outcome (list byte) :=
  let passphrase := or_default passphrase EmptyString in
  brainSeed <- normalize brainSeed ;;
  Returns (bip39_mnemonicToSeed brainSeed passphrase).

End Stretching.

(** ** A stand-in for [bip39-checker]

    A small instance of the interface, used to run the module on concrete
    inputs: two languages, [english] with sixteen words and [french] with
    four. *)

Module Fixture.

Definition english : list string :=
  ["able"; "acid"; "animal"; "bird"; "cake"; "dog"; "easy"; "fish";
   "gold"; "hero"; "iron"; "jazz"; "lazy"; "moon"; "nest"; "piano"].

Definition french : list string := ["animal"; "bonus"; "piano"; "vision"].

Definition wordlist_of (language : string) : outcome (list string) :=
  if String.eqb language "english" then Returns english
  else if String.eqb language "french" then Returns french
  else Throws ("Missing wordlist for language " ++ language)%string.

(** Lowercases, trims and collapses runs of spaces. *)
Definition canonical (s : string) : string :=
  join (filter truthy (split (toLowerCase s))).

Definition lib : Bip39Checker := {|
  normalize v :=
    match v with
    | Str s => Returns (canonical s)
    | _ => Throws "seed string required"
    end;
  checkWords seed language :=
    wordlist <- wordlist_of language ;;
    Returns (forallb (fun w => existsb (String.eqb w) wordlist) (split seed));
  validWordlist := wordlist_of
|}.

(** A random source that always draws zero bytes. *)
Definition zeroBytes (n : Z) : outcome (list byte) :=
  if n <? 0 then Throws "The value of size is out of range"
  else Returns (repeat x00 (Z.to_nat n)).

End Fixture.

(** * Notions used in the statements *)

(** ** Text and numbers *)

Definition is_lower_hex (c : ascii) : bool :=
  let n := N_of_ascii c in
  (((48 <=? n) && (n <=? 57)) || ((97 <=? n) && (n <=? 102)))%N.

Fixpoint all_chars (p : ascii -> bool) (s : string) : bool :=
  match s with
  | EmptyString => true
  | String c rest => p c && all_chars p rest
  end.


(** The word of the [k]-th digit of [v] in radix [B], counting from the least
    significant digit. *)
Definition radix_word (wordlist : list string) (B v : Z) (k : nat) : string :=
  element wordlist ((v / B ^ Z.of_nat k) mod B).

(** A buffer read as a big-endian unsigned number: the first byte weighs
    most. *)
Fixpoint big_endian (bs : list byte) : Z :=
  match bs with
  | [] => 0
  | b :: rest => Bytes.to_Z b * 256 ^ Z.of_nat (length rest) + big_endian rest
  end.

(** [1 + 2 + ... + n] *)
Definition triangular (n : Z) : Z := n * (n + 1) / 2.

(** Value of [entropyBn] once the loop body has run for the nonces
    [1 .. n]: every iteration adds its nonce to the running value. *)
Fixpoint entropyBn_after (n : nat) (entropyBn : Z) : Z :=
  match n with
  | O => entropyBn
  | S n' => entropyBn_after n' entropyBn + Z.of_nat (S n')
  end.

(** ** Generation and validation *)

(** The value [entropyBn] holds when the mining loop starts (lines 74 to
    91 of the source). *)
Definition mining_start (randomBytes : Z -> outcome (list byte)) (config : Config)
    : outcome Z :=
  let bits := or_default (bits config) 132 in
  let bytes := ceil_div bits 8 in
  seedBuf <- randomBytes bytes ;;
  match option_map entropy_bytes (entropy config) with
  | Some (Some entropy) => Returns (trim_bits (combine_entropy entropy seedBuf bytes) bits)
  | _ => Throws (entropy_catch (update_error (entropy config)))
  end.

(** The configuration with its version replaced. *)
Definition with_version (config : Config) (v : string) : Config :=
  {| entropy := entropy config; version := Some v;
     bits := bits config; language := language config |}.

(** The error of a version mismatch, as [assertValidSeed] words it. *)
Definition mismatch_message (seed v : string) : string :=
  let sv := seedVersion seed (Some (Z.of_nat (String.length v))) in
  let words := length (split seed) in
  ("Invalid brain seed version, expecting " ++ v ++ " got " ++ sv
   ++ (if (words <? 11)%nat
       then ".  Brain seeds are about 12 words but this seed is only "
            ++ show_nat words ++ " words."
       else EmptyString))%string.

Section Specification.

Context {lib : Bip39Checker}.

(** The search as the specification words it: the candidate of a nonce is
    [entropyValue + nonce], and the first nonce whose phrase carries the
    version decides. *)
Fixpoint VersionMiner_spec (fuel : nat) (nonce entropyValue : Z)
    (version language : string) : outcome (option string) :=
  match fuel with
  | O => Diverges
  | S fuel' =>
      phrase <- bnToSeed (entropyValue + nonce) language ;;
      if version_found phrase version then Returns (Some phrase)
      else VersionMiner_spec fuel' (nonce + 1) entropyValue version language
  end.

End Specification.

(** ** Reading a phrase back *)

(** Position of the first occurrence of a word in a list. *)
Fixpoint index_of (w : string) (wordlist : list string) : option Z :=
  match wordlist with
  | [] => None
  | x :: rest =>
      if String.eqb w x then Some 0
      else match index_of w rest with
           | Some i => Some (i + 1)
           | None => None
           end
  end.

(** The number whose radix-[B] digits, least significant first, are the
    positions of the words. *)
Fixpoint words_value (wordlist : list string) (words : list string) : option Z :=
  match words with
  | [] => Some 0
  | w :: rest =>
      match index_of w wordlist, words_value wordlist rest with
      | Some i, Some r => Some (i + Z.of_nat (length wordlist) * r)
      | _, _ => None
      end
  end.

(** A word as the word lists have them: no space inside. *)
Fixpoint no_space (w : string) : bool :=
  match w with
  | EmptyString => true
  | String c rest => negb (Ascii.eqb c " ") && no_space rest
  end.

(** ** Concrete inputs on the stand-in

    [randomBrainSeed ({entropy: 'entropy 322'})] with the default version,
    bit strength and language, and a random source that draws zeros. *)

Module Run.

Definition config : Config :=
  {| entropy := Some (EntropyString "entropy 322");
     version := None; bits := None; language := None |}.

Definition start : Z := 4804875404770602076744418310806226977685.

Definition tail : string :=
  ("hero bird lazy moon piano nest bird lazy easy jazz moon nest iron lazy animal hero"
   ++ " animal jazz easy bird acid acid gold cake hero fish dog hero lazy nest acid nest")%string.

(** The phrases of [start + 10] and of [start + 4]. *)
Definition generated : string := ("piano " ++ tail)%string.
Definition fourth : string := ("hero " ++ tail)%string.

End Run.

Module Exhausted.

(** Versions that no tag can equal: they are not hexadecimal. *)
Definition config (v : string) : Config :=
  {| entropy := Some (EntropyString "entropy 322");
     version := Some v; bits := None; language := None |}.

(** The phrase of [start + (1 + 2 + ... + (MAX_SAFE_INTEGER - 1))]. *)
Definition last : string :=
  ("easy hero bird lazy moon piano nest bird lazy easy jazz moon nest fish lazy animal hero"
   ++ " animal jazz easy bird acid acid gold cake hero hero dog hero lazy nest acid nest")%string.

End Exhausted.

(** * Properties *)

(** ** Sequencing *)

Lemma bind_Returns {A B} (a : A) (k : A -> outcome B) : Js.bind (Returns a) k = k a.
Proof. reflexivity. Qed.

Lemma bind_Throws {A B} (message : string) (k : A -> outcome B) :
  Js.bind (Throws message) k = Throws message.
Proof. reflexivity. Qed.

Lemma bind_Diverges {A B} (k : A -> outcome B) : Js.bind Diverges k = Diverges.
Proof. reflexivity. Qed.

(** ** The hash primitives *)

(** Known answers (FIPS 180-4 examples, RFC 4231 test case 2). *)
Example sha256_abc :
  Bytes.to_hex (Sha2.sha256 (Bytes.of_string "abc"))
  = "ba7816bf8f01cfea414140de5dae2223b00361a396177a9cb410ff61f20015ad".
Proof. vm_compute. reflexivity. Qed.

Example sha512_abc :
  Bytes.to_hex (Sha2.sha512 (Bytes.of_string "abc"))
  = ("ddaf35a193617abacc417349ae20413112e6fa4e89a97ea20a9eeee64b55d39a"
     ++ "2192992a274fc1a836ba3c23a3feebbd454d4423643ce80e2a9ac94fa54ca49f")%string.
Proof. vm_compute. reflexivity. Qed.

Example hmac_sha512_rfc4231 :
  Bytes.to_hex (Sha2.hmac_sha512 (Bytes.of_string "Jefe")
                                 (Bytes.of_string "what do ya want for nothing?"))
  = ("164b7a7bfcf819e2e395fbe73b56e0a387bd64222e831fd610270cd7ea250554"
     ++ "9758bf75c05a994a6d034f65f8f0e6fdcaeab1a34d4a6b4b636e070a38bce737")%string.
Proof. vm_compute. reflexivity. Qed.

(** The derived constants begin as the standard lists them. *)
Example sha512_constants :
  nth 0 Sha2.K512 0 = 0x428a2f98d728ae22
  /\ Sha2.sa Sha2.H512 = 0x6a09e667f3bcc908
  /\ nth 0 Sha2.K256 0 = 0x428a2f98
  /\ Sha2.sa Sha2.H256 = 0x6a09e667.
Proof. repeat split. Qed.

Lemma be_bytes_length (n : nat) (x : Z) : length (Bytes.be_bytes n x) = n.
Proof. unfold Bytes.be_bytes. now rewrite length_map, length_seq. Qed.

Lemma state_bytes_length (w : Z) (s : Sha2.state) :
  length (Sha2.state_bytes w s) = (8 * Sha2.word_bytes w)%nat.
Proof.
  unfold Sha2.state_bytes. cbn [flat_map].
  rewrite !length_app, !be_bytes_length. cbn [length]. lia.
Qed.

Lemma sha256_length (msg : list byte) : length (Sha2.sha256 msg) = 32%nat.
Proof. unfold Sha2.sha256, Sha2.hash. now rewrite state_bytes_length. Qed.

Lemma hmac_sha512_length (key msg : list byte) :
  length (Sha2.hmac_sha512 key msg) = 64%nat.
Proof. unfold Sha2.hmac_sha512, Sha2.hmac, Sha2.hash. now rewrite state_bytes_length. Qed.

(** ** Hexadecimal text *)

Lemma to_hex_length (bs : list byte) :
  String.length (Bytes.to_hex bs) = (2 * length bs)%nat.
Proof. induction bs as [|b bs IH]; cbn [Bytes.to_hex String.length length]; lia. Qed.

Lemma hex_digits_of_byte (b : byte) :
  is_lower_hex (Bytes.hex_digit (Bytes.to_Z b / 16)) = true
  /\ is_lower_hex (Bytes.hex_digit (Bytes.to_Z b mod 16)) = true.
Proof. destruct b; vm_compute; split; reflexivity. Qed.

Lemma to_hex_lower_hex (bs : list byte) : all_chars is_lower_hex (Bytes.to_hex bs) = true.
Proof.
  induction bs as [|b bs IH]; [reflexivity|].
  cbn [Bytes.to_hex all_chars].
  destruct (hex_digits_of_byte b) as [-> ->]. exact IH.
Qed.

Lemma substring0_length (s : string) (n : nat) :
  String.length (String.substring 0 n s) = Nat.min n (String.length s).
Proof.
  revert s; induction n as [|n IH]; intros [|c s]; cbn; try reflexivity.
  now rewrite IH.
Qed.

Lemma substring0_all_chars (p : ascii -> bool) (s : string) (n : nat) :
  all_chars p s = true -> all_chars p (String.substring 0 n s) = true.
Proof.
  revert s; induction n as [|n IH]; intros [|c s]; cbn; try reflexivity.
  intros H. apply andb_true_iff in H as [-> H]. now apply IH.
Qed.

Lemma seedVersion_digest_length (brainSeed key : string) :
  String.length
    (Bytes.to_hex (Sha2.hmac_sha512 (Bytes.of_string key) (Bytes.of_string brainSeed)))
  = 128%nat.
Proof. now rewrite to_hex_length, hmac_sha512_length. Qed.

Lemma seedVersion_lower_hex (brainSeed : string) (k : option Z) :
  all_chars is_lower_hex (seedVersion brainSeed k) = true.
Proof. apply substring0_all_chars, to_hex_lower_hex. Qed.

Lemma seedVersion_length (brainSeed : string) (k : Z) :
  String.length (seedVersion brainSeed (Some k)) = Nat.min (Z.to_nat k) 128.
Proof.
  unfold seedVersion, substring0. cbn [or_default].
  now rewrite substring0_length, seedVersion_digest_length.
Qed.

(** ** Radix encoding: [bnToSeed] *)

Lemma radix_word_shift (wordlist : list string) (B v : Z) (k : nat) :
  0 < B -> radix_word wordlist B v (S k) = radix_word wordlist B (v / B) k.
Proof.
  intros HB. unfold radix_word. do 2 f_equal.
  rewrite Nat2Z.inj_succ, Z.pow_succ_r by lia.
  rewrite Z.div_div by (try apply Z.pow_pos_nonneg; lia). reflexivity.
Qed.

Lemma radix_words_cons (wordlist : list string) (B v : Z) (m : nat) :
  0 < B ->
  map (radix_word wordlist B v) (seq 0 (S m))
  = element wordlist (v mod B) :: map (radix_word wordlist B (v / B)) (seq 0 m).
Proof.
  intros HB. cbn [seq map]. f_equal.
  - unfold radix_word. cbn [Z.of_nat]. now rewrite Z.pow_0_r, Z.div_1_r.
  - rewrite <- seq_shift, map_map. apply map_ext. intros k. now apply radix_word_shift.
Qed.

Lemma bnToSeed_loop_returns (f : nat) (wordlist : list string) (B : Z) :
  2 <= B ->
  forall (i : Z) (words : list string),
    0 <= i < 2 ^ Z.of_nat f ->
    exists m : nat,
      (m <= f)%nat
      /\ (i = 0 -> m = 0%nat)
      /\ (0 < i -> B ^ (Z.of_nat m - 1) <= i < B ^ Z.of_nat m)
      /\ bnToSeed_loop (S f) wordlist B i words
         = Returns (words ++ map (radix_word wordlist B i) (seq 0 m)).
Proof.
  intros HB. induction f as [|f IH]; intros i words Hi.
  - exists 0%nat. cbn [Z.of_nat] in Hi. rewrite Z.pow_0_r in Hi.
    assert (i = 0) as -> by lia.
    repeat split; try lia. cbn. now rewrite app_nil_r.
  - destruct (Z.eq_dec i 0) as [->|Hnz].
    + exists 0%nat. repeat split; try lia. cbn. now rewrite app_nil_r.
    + assert (Hq : 0 <= i / B < 2 ^ Z.of_nat f).
      { rewrite Nat2Z.inj_succ, Z.pow_succ_r in Hi by lia. split.
        - apply Z.div_pos; lia.
        - apply Z.div_lt_upper_bound; nia. }
      destruct (IH (i / B) (words ++ [element wordlist (i mod B)]) Hq)
        as (m & Hm & Hzero & Hpos & Hrun).
      exists (S m). split; [lia|]. split; [lia|]. split.
      * intros _. rewrite Nat2Z.inj_succ.
        replace (Z.succ (Z.of_nat m) - 1) with (Z.of_nat m) by lia.
        rewrite Z.pow_succ_r by lia.
        pose proof (Z.div_mod i B ltac:(lia)) as Hdm.
        pose proof (Z.mod_pos_bound i B ltac:(lia)) as Hmod.
        destruct (Z.eq_dec (i / B) 0) as [Hz|Hz].
        -- rewrite (Hzero Hz). cbn [Z.of_nat]. rewrite Z.pow_0_r. lia.
        -- destruct (Hpos ltac:(lia)) as [Hlo Hhi].
           destruct m as [|m'].
           ++ cbn [Z.of_nat] in Hhi. rewrite Z.pow_0_r in Hhi. lia.
           ++ rewrite Nat2Z.inj_succ in *.
              replace (Z.succ (Z.of_nat m') - 1) with (Z.of_nat m') in Hlo by lia.
              rewrite Z.pow_succ_r in * by lia. nia.
      * change (bnToSeed_loop (S (S f)) wordlist B i words)
          with (if i =? 0 then Returns words
                else if B =? 0 then Throws "Assertion failed"
                else bnToSeed_loop (S f) wordlist B (Z.quot i B)
                                   (words ++ [element wordlist (Z.rem i B)])).
        destruct (Z.eqb_spec i 0) as [|_]; [contradiction|].
        destruct (Z.eqb_spec B 0) as [|_]; [lia|].
        rewrite Z.quot_div_nonneg, Z.rem_mod_nonneg by lia.
        rewrite Hrun, radix_words_cons by lia.
        now rewrite <- app_assoc.
Qed.

(** With a one-word list the quotient never shrinks: the loop of the source
    does not end, which the model reports whatever the fuel. *)
Lemma bnToSeed_loop_one_word (fuel : nat) (wordlist : list string) (i : Z)
    (words : list string) :
  i <> 0 -> bnToSeed_loop fuel wordlist 1 i words = Diverges.
Proof.
  intros Hi. revert words. induction fuel as [|fuel IH]; intros words; [reflexivity|].
  cbn [bnToSeed_loop]. destruct (Z.eqb_spec i 0) as [|_]; [contradiction|].
  cbn [Z.eqb]. rewrite Z.quot_1_r. apply IH.
Qed.

Lemma bnToSeed_fuel_enough (i : Z) :
  0 <= i -> exists f : nat, bnToSeed_fuel i = S f /\ i < 2 ^ Z.of_nat f.
Proof.
  intros Hi. exists (S (Z.to_nat (Z.log2 (Z.abs i)))). split.
  - unfold bnToSeed_fuel. lia.
  - rewrite Z.abs_eq by lia. rewrite Nat2Z.inj_succ, Z2Nat.id by apply Z.log2_nonneg.
    destruct (Z.eq_dec i 0) as [->|Hnz]; [reflexivity|].
    apply Z.log2_spec. lia.
Qed.

Section Encoding.

Context {lib : Bip39Checker}.

Lemma bnToSeed_words_digits (language : string) (wordlist : list string) (v : Z) :
  validWordlist language = Returns wordlist ->
  2 <= Z.of_nat (length wordlist) ->
  0 < v ->
  exists count : nat,
    Z.of_nat (length wordlist) ^ (Z.of_nat count - 1) <= v
      < Z.of_nat (length wordlist) ^ Z.of_nat count
    /\ bnToSeed_words v language
       = Returns (map (radix_word wordlist (Z.of_nat (length wordlist)) v) (seq 0 count)).
Proof.
  intros Hwl HB Hv.
  destruct (bnToSeed_fuel_enough v ltac:(lia)) as (f & Hfuel & Hlt).
  destruct (bnToSeed_loop_returns f wordlist _ HB v [] ltac:(lia))
    as (m & _ & _ & Hpos & Hrun).
  exists m. split; [apply Hpos; lia|].
  unfold bnToSeed_words. rewrite Hwl. cbn [Js.bind]. rewrite Hfuel. exact Hrun.
Qed.

(** With a word list of two words or more, encoding a positive number
    returns. *)
Lemma bnToSeed_returns (language : string) (wordlist : list string) (v : Z) :
  validWordlist language = Returns wordlist ->
  2 <= Z.of_nat (length wordlist) ->
  0 < v ->
  exists seed, bnToSeed v language = Returns seed.
Proof.
  intros Hwl HB Hv.
  destruct (bnToSeed_words_digits language wordlist v Hwl HB Hv) as (m & _ & Hrun).
  unfold bnToSeed. rewrite Hrun. cbn [Js.bind]. eauto.
Qed.

End Encoding.

(** ** The mining loop *)

Lemma triangular_succ (n : Z) : triangular (n + 1) = triangular n + (n + 1).
Proof.
  unfold triangular.
  replace ((n + 1) * (n + 1 + 1)) with (n * (n + 1) + (n + 1) * 2) by ring.
  now rewrite Z.div_add by lia.
Qed.

Lemma triangular_pred (n : Z) : triangular (n - 1) + n = triangular n.
Proof. pose proof (triangular_succ (n - 1)) as H. replace (n - 1 + 1) with n in H by lia. lia. Qed.

Lemma triangular_pos (n : Z) : 1 <= n -> 0 < triangular n.
Proof.
  intros Hn. unfold triangular. apply Z.div_str_pos. nia.
Qed.

Lemma entropyBn_after_closed (n : nat) (entropyBn : Z) :
  entropyBn_after n entropyBn = entropyBn + triangular (Z.of_nat n).
Proof.
  induction n as [|n IH]; [cbn; unfold triangular; cbn; lia|].
  cbn [entropyBn_after]. rewrite IH, Nat2Z.inj_succ.
  rewrite <- Z.add_1_r, triangular_succ. lia.
Qed.

Section Mining.

Context {lib : Bip39Checker}.
Variables (version language : string).

Lemma mine_unfold (fuel : nat) (nonce entropyBn : Z) (brainSeed : option string) :
  mine (S fuel) nonce entropyBn brainSeed version language
  = if nonce <? MAX_SAFE_INTEGER then
      seed <- bnToSeed (entropyBn + nonce) language ;;
      if version_found seed version then Returns (Some seed)
      else mine fuel (nonce + 1) (entropyBn + nonce) (Some seed) version language
    else Returns brainSeed.
Proof. reflexivity. Qed.

(** More fuel does not change a run that ended. *)
Lemma mine_fuel_mono (f f' : nat) (nonce entropyBn : Z) (brainSeed : option string)
    (r : outcome (option string)) :
  (f <= f')%nat ->
  mine f nonce entropyBn brainSeed version language = r ->
  r <> Diverges ->
  mine f' nonce entropyBn brainSeed version language = r.
Proof.
  revert f' nonce entropyBn brainSeed.
  induction f as [|f IH]; intros f' nonce entropyBn brainSeed Hle Hrun Hr.
  - cbn in Hrun. congruence.
  - destruct f' as [|f']; [lia|].
    rewrite mine_unfold in *.
    destruct (nonce <? MAX_SAFE_INTEGER); [|exact Hrun].
    destruct (bnToSeed (entropyBn + nonce) language) as [seed| |]; cbn [Js.bind] in *;
      try exact Hrun.
    destruct (version_found seed version); [exact Hrun|].
    apply IH; [lia|exact Hrun|exact Hr].
Qed.

(** The guard bounds the loop: it never runs out of the fuel
    [MAX_SAFE_INTEGER] it is started with; only an encoding that does not
    end can keep it from ending. *)
Lemma mine_fuel_enough (d : nat) :
  forall (fuel : nat) (nonce entropyBn : Z) (brainSeed : option string),
    MAX_SAFE_INTEGER <= nonce + Z.of_nat d ->
    (d < fuel)%nat ->
    0 <= nonce ->
    (forall i, entropyBn <= i -> bnToSeed i language <> Diverges) ->
    mine fuel nonce entropyBn brainSeed version language <> Diverges.
Proof.
  induction d as [|d IH]; intros fuel nonce entropyBn brainSeed Hd Hfuel Hnonce Henc;
    (destruct fuel as [|fuel]; [lia|]); rewrite mine_unfold.
  - destruct (Z.ltb_spec nonce MAX_SAFE_INTEGER); [lia|discriminate].
  - destruct (Z.ltb_spec nonce MAX_SAFE_INTEGER); [|discriminate].
    pose proof (Henc (entropyBn + nonce) ltac:(lia)) as Hne.
    destruct (bnToSeed (entropyBn + nonce) language) as [seed| |]; cbn [Js.bind];
      [|discriminate|congruence].
    destruct (version_found seed version); [discriminate|].
    apply IH; try lia. intros i Hi. apply Henc. lia.
Qed.

(** After [n] nonces that did not give the version the loop goes on with
    nonce [n + 1] and the running value [entropyBn_after n]. *)
Lemma mine_running_value (n : nat) :
  forall (fuel : nat) (entropyBn : Z) (brainSeed : option string),
    Z.of_nat n < MAX_SAFE_INTEGER ->
    (forall k, (1 <= k <= n)%nat ->
       exists s, bnToSeed (entropyBn_after k entropyBn) language = Returns s
                 /\ version_found s version = false) ->
    exists brainSeed',
      mine (n + fuel) 1 entropyBn brainSeed version language
      = mine fuel (Z.of_nat n + 1) (entropyBn_after n entropyBn) brainSeed'
             version language.
Proof.
  induction n as [|n IH]; intros fuel entropyBn brainSeed Hmax Hnone.
  - exists brainSeed. reflexivity.
  - destruct (IH (S fuel) entropyBn brainSeed ltac:(lia)) as (seed & Hrun).
    { intros k Hk. apply Hnone. lia. }
    destruct (Hnone (S n) ltac:(lia)) as (s & Hs & Hnot).
    exists (Some s).
    replace (S n + fuel)%nat with (n + S fuel)%nat by lia.
    rewrite Hrun, mine_unfold.
    destruct (Z.ltb_spec (Z.of_nat n + 1) MAX_SAFE_INTEGER); [|lia].
    cbn [entropyBn_after] in Hs |- *.
    replace (Z.of_nat (S n)) with (Z.of_nat n + 1) in * by lia.
    rewrite Hs, bind_Returns, Hnot. reflexivity.
Qed.

(** The loop returns the phrase of the first nonce whose candidate carries
    the version; the candidate of nonce [k] is the start value plus
    [1 + 2 + ... + k]. *)
Lemma mine_first_match (d : nat) :
  forall (fuel : nat) (nonce start : Z) (brainSeed : option string) (n : Z) (seed : string),
    1 <= nonce ->
    n = nonce + Z.of_nat d ->
    n < MAX_SAFE_INTEGER ->
    (d < fuel)%nat ->
    (forall k, nonce <= k < n ->
       exists s, bnToSeed (start + triangular k) language = Returns s
                 /\ version_found s version = false) ->
    bnToSeed (start + triangular n) language = Returns seed ->
    version_found seed version = true ->
    mine fuel nonce (start + triangular (nonce - 1)) brainSeed version language
    = Returns (Some seed).
Proof.
  induction d as [|d IH];
    intros fuel nonce start brainSeed n seed Hnonce Hn Hmax Hfuel Hbefore Hseed Hfound;
    (destruct fuel as [|fuel]; [lia|]); rewrite mine_unfold;
    (destruct (Z.ltb_spec nonce MAX_SAFE_INTEGER); [|lia]);
    rewrite <- Z.add_assoc, triangular_pred.
  - replace nonce with n by lia. rewrite Hseed. cbn [Js.bind]. now rewrite Hfound.
  - destruct (Hbefore nonce ltac:(lia)) as (s & Hs & Hnot).
    rewrite Hs. cbn [Js.bind]. rewrite Hnot.
    replace (start + triangular nonce)
      with (start + triangular (nonce + 1 - 1)) by (f_equal; f_equal; lia).
    apply (IH fuel (nonce + 1) start (Some s) n seed); try lia; try assumption.
    intros k Hk. apply Hbefore. lia.
Qed.

(** When no nonce below [MAX_SAFE_INTEGER] gives the version the loop ends
    at the guard, and what is left in [brainSeed] is the phrase of the last
    candidate. *)
Lemma mine_exhausted (d : nat) :
  forall (fuel : nat) (nonce start : Z) (brainSeed : option string) (last : string),
    1 <= nonce ->
    nonce + Z.of_nat d = MAX_SAFE_INTEGER ->
    (d < fuel)%nat ->
    (forall k, nonce <= k < MAX_SAFE_INTEGER ->
       exists s, bnToSeed (start + triangular k) language = Returns s
                 /\ version_found s version = false) ->
    bnToSeed (start + triangular (MAX_SAFE_INTEGER - 1)) language = Returns last ->
    mine fuel nonce (start + triangular (nonce - 1)) brainSeed version language
    = Returns (match d with O => brainSeed | S _ => Some last end).
Proof.
  induction d as [|d IH];
    intros fuel nonce start brainSeed last Hnonce Hd Hfuel Hnone Hlast;
    (destruct fuel as [|fuel]; [lia|]); rewrite mine_unfold.
  - destruct (Z.ltb_spec nonce MAX_SAFE_INTEGER); [lia|reflexivity].
  - destruct (Z.ltb_spec nonce MAX_SAFE_INTEGER); [|lia].
    rewrite <- Z.add_assoc, triangular_pred.
    destruct (Hnone nonce ltac:(lia)) as (s & Hs & Hnot).
    rewrite Hs. cbn [Js.bind]. rewrite Hnot.
    replace (start + triangular nonce)
      with (start + triangular (nonce + 1 - 1)) by (f_equal; f_equal; lia).
    rewrite (IH fuel (nonce + 1) start (Some s) last); try lia; try assumption.
    + destruct d as [|d']; [|reflexivity].
      replace (MAX_SAFE_INTEGER - 1) with nonce in Hlast by lia. congruence.
    + intros k Hk. apply Hnone. lia.
Qed.

End Mining.

(** ** Bit trimming *)

Lemma to_Z_range (b : byte) : 0 <= Bytes.to_Z b < 256.
Proof. unfold Bytes.to_Z. pose proof (Byte.to_N_bounded b). lia. Qed.

Lemma be_value_acc (bs : list byte) (acc : Z) :
  fold_left (fun a b => a * 256 + Bytes.to_Z b) bs acc
  = acc * 256 ^ Z.of_nat (length bs) + big_endian bs.
Proof.
  revert acc. induction bs as [|b bs IH]; intros acc.
  - cbn. lia.
  - cbn [fold_left big_endian length]. rewrite IH, Nat2Z.inj_succ, Z.pow_succ_r by lia. ring.
Qed.

Lemma BN_of_buffer_big_endian (buf : list byte) : BN_of_buffer buf = big_endian buf.
Proof. unfold BN_of_buffer, Bytes.be_value. rewrite be_value_acc. lia. Qed.

Lemma big_endian_range (bs : list byte) : 0 <= big_endian bs < 256 ^ Z.of_nat (length bs).
Proof.
  induction bs as [|b bs IH]; [cbn; lia|].
  cbn [big_endian length]. rewrite Nat2Z.inj_succ, Z.pow_succ_r by lia.
  pose proof (to_Z_range b). nia.
Qed.

Lemma slice0_length_ceil (digest : list byte) (bits : Z) :
  0 <= bits ->
  bits <= 8 * Z.of_nat (length (slice0 digest (ceil_div bits 8))) ->
  Z.of_nat (length (slice0 digest (ceil_div bits 8))) = ceil_div bits 8.
Proof.
  unfold slice0, ceil_div. intros Hbits.
  assert (Hc : 0 <= (bits + 8 - 1) / 8) by (apply Z.div_pos; lia).
  destruct (Z.ltb_spec ((bits + 8 - 1) / 8) 0) as [|_]; [lia|].
  rewrite length_firstn. intros Hlen.
  assert ((bits + 8 - 1) / 8
          < Z.of_nat (Nat.min (Z.to_nat ((bits + 8 - 1) / 8)) (length digest)) + 1).
  { apply Z.div_lt_upper_bound; lia. }
  lia.
Qed.

Lemma trim_bits_below (seedBuf : list byte) (bits : Z) :
  0 <= bits ->
  Z.of_nat (length seedBuf) = ceil_div bits 8 ->
  0 <= trim_bits seedBuf bits < 2 ^ bits.
Proof.
  intros Hbits Hlen. unfold trim_bits, shrn.
  rewrite BN_of_buffer_big_endian, <- Hlen.
  pose proof (big_endian_range seedBuf) as Hrange.
  assert (Hsh : 0 <= Z.of_nat (length seedBuf) * 8 - bits).
  { rewrite Hlen. unfold ceil_div.
    pose proof (Z.mul_div_le (bits + 8 - 1) 8 ltac:(lia)).
    pose proof (Z.mod_pos_bound (bits + 8 - 1) 8 ltac:(lia)).
    pose proof (Z.div_mod (bits + 8 - 1) 8 ltac:(lia)). lia. }
  rewrite Z.shiftr_div_pow2 by lia. split.
  - apply Z.div_pos; [lia|]. apply Z.pow_pos_nonneg; lia.
  - apply Z.div_lt_upper_bound; [apply Z.pow_pos_nonneg; lia|].
    rewrite <- Z.pow_add_r by lia.
    replace (Z.of_nat (length seedBuf) * 8 - bits + bits)
      with (8 * Z.of_nat (length seedBuf)) by lia.
    rewrite Z.pow_mul_r by lia. change (2 ^ 8) with 256. lia.
Qed.

(** With the 32 bytes of SHA-256, a strength of at most 256 bits gives the
    mining loop a start value of at most that many bits. *)
Lemma mining_start_range (randomBytes : Z -> outcome (list byte)) (config : Config)
    (start : Z) :
  0 <= or_default (bits config) 132 <= 256 ->
  mining_start randomBytes config = Returns start ->
  0 <= start < 2 ^ or_default (bits config) 132.
Proof.
  intros Hbits. unfold mining_start.
  destruct (randomBytes _) as [seedBuf| |]; rewrite ?bind_Returns; try discriminate.
  destruct (option_map entropy_bytes (entropy config)) as [[e|]|]; try discriminate.
  intros [= <-]. apply trim_bits_below; [lia|].
  unfold combine_entropy, slice0, ceil_div.
  assert (0 <= (or_default (bits config) 132 + 8 - 1) / 8 <= 32).
  { split; [apply Z.div_pos; lia|].
    apply Z.lt_succ_r, Z.div_lt_upper_bound; lia. }
  destruct (Z.ltb_spec ((or_default (bits config) 132 + 8 - 1) / 8) 0); [lia|].
  rewrite length_firstn, sha256_length. lia.
Qed.

(** C7. The buffer that reaches the trimming step is the digest cut to
    [ceil (bits / 8)] bytes. Whenever [bits] is at most eight times its length
    [n], the step shifts the big-endian value of the buffer right by exactly
    [8 n - bits]; the result has at most [bits] significant bits, and each of
    its bits is the bit of the buffer [8 n - bits] places higher. *)
Theorem trim_bits_shifts_big_endian (digest : list byte) (bits : Z) :
  let seedBuf := slice0 digest (ceil_div bits 8) in
  let n := Z.of_nat (length seedBuf) in
  0 <= bits ->
  bits <= 8 * n ->
  trim_bits seedBuf bits = Z.shiftr (big_endian seedBuf) (8 * n - bits)
  /\ 0 <= trim_bits seedBuf bits < 2 ^ bits
  /\ forall j, 0 <= j ->
       Z.testbit (trim_bits seedBuf bits) j
       = Z.testbit (big_endian seedBuf) (j + (8 * n - bits)).
Proof.
  intros seedBuf n Hbits Hn.
  assert (Hlen : n = ceil_div bits 8) by (apply slice0_length_ceil; assumption).
  assert (Htrim : trim_bits seedBuf bits = Z.shiftr (big_endian seedBuf) (8 * n - bits)).
  { unfold trim_bits, shrn. rewrite BN_of_buffer_big_endian, <- Hlen. f_equal. lia. }
  split; [exact Htrim|]. split.
  - apply trim_bits_below; assumption.
  - rewrite Htrim. intros j Hj. now rewrite Z.shiftr_spec by lia.
Qed.

(** The digest of [abc] trimmed to 20 bits: three bytes, shifted by four. *)
Lemma trim_bits_shifts_big_endian_witness :
  let seedBuf := slice0 (Sha2.sha256 (Bytes.of_string "abc")) (ceil_div 20 8) in
  length seedBuf = 3%nat
  /\ trim_bits seedBuf 20 = 0xba781
  /\ trim_bits seedBuf 20 = Z.shiftr (big_endian seedBuf) (8 * 3 - 20).
Proof.
  pose proof (trim_bits_shifts_big_endian (Sha2.sha256 (Bytes.of_string "abc")) 20
                ltac:(lia) ltac:(vm_compute; discriminate)) as H.
  cbv zeta in *. destruct H as (H & _).
  split; [vm_compute; reflexivity|]. split; [vm_compute; reflexivity|].
  exact H.
Defined.

(** ** The version tag: [seedVersion] *)

Example seedVersion_lazy_dog : seedVersion "lazy dog" None = "c1".
Proof. vm_compute. reflexivity. Qed.

(** C10. For a length [k] between 1 and 128, [seedVersion] returns exactly
    [k] characters, all of them lowercase hexadecimal digits; the digest has
    128 characters, so a larger [k] returns 128; without [versionLength] it
    returns the 2 characters of the default version. *)
Theorem seedVersion_length_and_alphabet (brainSeed : string) (k : Z) :
  1 <= k <= 128 ->
  String.length (seedVersion brainSeed (Some k)) = Z.to_nat k
  /\ all_chars is_lower_hex (seedVersion brainSeed (Some k)) = true
  /\ (forall k', 128 < k' -> String.length (seedVersion brainSeed (Some k')) = 128%nat)
  /\ String.length (seedVersion brainSeed None) = 2%nat.
Proof.
  intros Hk. split; [|split; [|split]].
  - rewrite seedVersion_length. lia.
  - apply seedVersion_lower_hex.
  - intros k' Hk'. rewrite seedVersion_length. lia.
  - change (seedVersion brainSeed None) with (seedVersion brainSeed (Some 2)).
    now rewrite seedVersion_length.
Qed.

Lemma seedVersion_length_and_alphabet_witness :
  1 <= 3 <= 128
  /\ String.length (seedVersion "lazy dog" (Some 3)) = 3%nat
  /\ seedVersion "lazy dog" (Some 3) = "c1d".
Proof.
  split; [lia|]. split.
  - exact (proj1 (seedVersion_length_and_alphabet "lazy dog" 3 ltac:(lia))).
  - vm_compute. reflexivity.
Defined.

Section VersionTag.

Context {lib : Bip39Checker}.

(** C6. [seedVersion] is the first [k] characters of the hexadecimal
    HMAC-SHA512 of the phrase text under the fixed key; it is a function of
    the phrase and of [k] alone, and validation under two languages that
    both know the words of a phrase reaches the same verdict. *)
Theorem seedVersion_is_hmac_prefix (brainSeed : string) (k : Z)
    (version : option string) (language1 language2 : string) :
  seedVersion brainSeed (Some k)
  = String.substring 0 (Z.to_nat k)
      (Bytes.to_hex (Sha2.hmac_sha512 (Bytes.of_string "Seed version")
                                      (Bytes.of_string brainSeed)))
  /\ (forall brainSeed' k',
        brainSeed' = brainSeed -> k' = k ->
        seedVersion brainSeed' (Some k') = seedVersion brainSeed (Some k))
  /\ (checkWords brainSeed language1 = Returns true ->
      checkWords brainSeed language2 = Returns true ->
      assertValidSeed brainSeed version language1
      = assertValidSeed brainSeed version language2).
Proof.
  split; [reflexivity|]. split.
  - intros brainSeed' k' -> ->. reflexivity.
  - intros H1 H2. unfold assertValidSeed. now rewrite H1, H2.
Qed.

End VersionTag.

(** The phrase [animal piano] is made of words of both lists of the
    stand-in; its tag is the same under either language. *)
Lemma seedVersion_is_hmac_prefix_witness :
  seedVersion "animal piano" (Some 2) = "e8"
  /\ assertValidSeed (lib := Fixture.lib) "animal piano" (Some "E8") "english" = Returns tt
  /\ assertValidSeed (lib := Fixture.lib) "animal piano" (Some "E8") "french" = Returns tt.
Proof.
  destruct (seedVersion_is_hmac_prefix (lib := Fixture.lib)
              "animal piano" 2 (Some "E8") "english" "french") as (Htag & _ & Hlang).
  split; [rewrite Htag; vm_compute; reflexivity|].
  rewrite <- (Hlang eq_refl eq_refl).
  split; vm_compute; reflexivity.
Defined.

(** ** Lowercase text *)

Lemma lower_char_idempotent (c : ascii) : lower_char (lower_char c) = lower_char c.
Proof. destruct c as [[] [] [] [] [] [] [] []]; reflexivity. Qed.

Lemma toLowerCase_idempotent (s : string) : toLowerCase (toLowerCase s) = toLowerCase s.
Proof.
  induction s as [|c s IH]; [reflexivity|].
  cbn [toLowerCase]. now rewrite lower_char_idempotent, IH.
Qed.



(** ** Word encoding *)

Section WordCodec.

Context {lib : Bip39Checker}.

(** C5. For a positive [v] and a word list of [B >= 2] words, [bnToSeed]
    returns the words of the radix-[B] digits of [v], least significant
    digit first: word [k] is the word of index [(v / B ^ k) mod B]. Their
    number [count] is the least one that can represent [v]
    ([B ^ (count - 1) <= v < B ^ count]), so the last word is never the
    padding word of a zero digit. *)
Theorem bnToSeed_least_significant_first (language : string)
    (wordlist : list string) (v : Z) :
  let B := Z.of_nat (length wordlist) in
  validWordlist language = Returns wordlist ->
  2 <= B ->
  0 < v ->
  exists count : nat,
    B ^ (Z.of_nat count - 1) <= v < B ^ Z.of_nat count
    /\ (v / B ^ (Z.of_nat count - 1)) mod B <> 0
    /\ bnToSeed_words v language
       = Returns (map (fun k => element wordlist ((v / B ^ Z.of_nat k) mod B))
                      (seq 0 count))
    /\ bnToSeed v language
       = Returns (join (map (fun k => element wordlist ((v / B ^ Z.of_nat k) mod B))
                            (seq 0 count))).
Proof.
  intros B Hwl HB Hv.
  destruct (bnToSeed_words_digits language wordlist v Hwl HB Hv) as (count & Hcount & Hrun).
  fold B in Hcount, Hrun.
  exists count. split; [exact Hcount|]. split; [|split].
  - destruct count as [|c].
    + cbn in Hcount. lia.
    + rewrite Nat2Z.inj_succ in *.
      replace (Z.succ (Z.of_nat c) - 1) with (Z.of_nat c) in * by lia.
      rewrite Z.pow_succ_r in Hcount by lia.
      assert (Hp : 0 < B ^ Z.of_nat c) by (apply Z.pow_pos_nonneg; lia).
      assert (1 <= v / B ^ Z.of_nat c) by (apply Z.div_le_lower_bound; lia).
      assert (v / B ^ Z.of_nat c < B) by (apply Z.div_lt_upper_bound; lia).
      rewrite Z.mod_small by lia. lia.
  - exact Hrun.
  - unfold bnToSeed. rewrite Hrun. reflexivity.
Qed.

End WordCodec.

(** [0x1234] in radix 16, lowest digit first: 4, 3, 2, 1. *)
Lemma bnToSeed_least_significant_first_witness :
  bnToSeed (lib := Fixture.lib) 0x1234 "english" = Returns "cake bird animal acid"
  /\ exists count : nat,
       16 ^ (Z.of_nat count - 1) <= 0x1234 < 16 ^ Z.of_nat count
       /\ bnToSeed (lib := Fixture.lib) 0x1234 "english"
          = Returns (join (map (fun k => element Fixture.english ((0x1234 / 16 ^ Z.of_nat k) mod 16))
                               (seq 0 count))).
Proof.
  split; [vm_compute; reflexivity|].
  destruct (bnToSeed_least_significant_first (lib := Fixture.lib)
              "english" Fixture.english 0x1234 eq_refl ltac:(vm_compute; discriminate)
              ltac:(lia)) as (count & Hcount & _ & _ & Hrun).
  exists count. split; [exact Hcount | exact Hrun].
Defined.

(** ** Validation: [checkSeed] *)

Section Validation.

Context {lib : Bip39Checker}.

Lemma assertValidSeed_cases (seed : string) (version : option string) (lang : string) :
  let v := toLowerCase (or_default version DEFAULT_VERSION) in
  assertValidSeed seed version lang
  = (ok <- checkWords seed lang ;;
     if negb ok then Throws "Invalid brain seed"
     else if String.eqb (seedVersion seed (Some (Z.of_nat (String.length v)))) v
          then Returns tt
          else Throws (mismatch_message seed v)).
Proof.
  intros v. unfold assertValidSeed, mismatch_message. fold v.
  destruct (checkWords seed lang) as [[|]| |]; cbn [Js.bind negb]; try reflexivity.
  destruct (String.eqb _ v); reflexivity.
Qed.

Lemma checkSeed_cases (brainSeed : value) (version lang : option string) :
  checkSeed brainSeed version lang
  = match (seed <- normalize brainSeed ;;
           assertValidSeed seed (Some (or_default version DEFAULT_VERSION))
                           (or_default lang "english")) with
    | Returns _ => Returns {| valid := true; error := None |}
    | Throws message => Returns {| valid := false; error := Some message |}
    | Diverges => Diverges
    end.
Proof.
  unfold checkSeed.
  destruct (normalize brainSeed) as [seed| |]; cbn [Js.bind try_catch]; try reflexivity.
  destruct (assertValidSeed seed _ _) as [[]| |]; reflexivity.
Qed.

Lemma checkSeed_mismatch (brainSeed : value) (seed : string) (version lang : option string) :
  let v := toLowerCase (or_default version DEFAULT_VERSION) in
  normalize brainSeed = Returns seed ->
  checkWords seed (or_default lang "english") = Returns true ->
  seedVersion seed (Some (Z.of_nat (String.length v))) <> v ->
  checkSeed brainSeed version lang
  = Returns {| valid := false; error := Some (mismatch_message seed v) |}.
Proof.
  intros v Hnorm Hwords Hsv.
  rewrite checkSeed_cases, Hnorm. cbn [Js.bind].
  rewrite assertValidSeed_cases, Hwords. cbn [Js.bind negb or_default]. fold v.
  apply String.eqb_neq in Hsv. now rewrite Hsv.
Qed.

(** C8. When the words of a phrase are all known but its tag is not the
    expected version, and the phrase has fewer than 11 words, the error of
    [checkSeed] ends with the short-seed hint, which gives the number of
    words. For [lazy dog] under the default version the message says the
    seed is only 2 words. *)
Theorem checkSeed_short_seed_hint (brainSeed : value) (seed : string)
    (version lang : option string) :
  let v := toLowerCase (or_default version DEFAULT_VERSION) in
  let sv := seedVersion seed (Some (Z.of_nat (String.length v))) in
  let words := length (split seed) in
  normalize brainSeed = Returns seed ->
  checkWords seed (or_default lang "english") = Returns true ->
  sv <> v ->
  (words < 11)%nat ->
  checkSeed brainSeed version lang
  = Returns {| valid := false;
               error := Some ("Invalid brain seed version, expecting " ++ v
                              ++ " got " ++ sv
                              ++ ".  Brain seeds are about 12 words but this seed is only "
                              ++ show_nat words ++ " words.")%string |}
  /\ (normalize (Str "lazy dog") = Returns "lazy dog" ->
      checkWords "lazy dog" "english" = Returns true ->
      checkSeed (Str "lazy dog") None None
      = Returns {| valid := false;
                   error := Some ("Invalid brain seed version, expecting 01 got c1."
                                  ++ "  Brain seeds are about 12 words but this seed is"
                                  ++ " only 2 words.")%string |}).
Proof.
  intros v sv words Hnorm Hwords Hsv Hshort. split.
  - rewrite (checkSeed_mismatch brainSeed seed version lang Hnorm Hwords Hsv).
    unfold mismatch_message. fold v sv words.
    apply Nat.ltb_lt in Hshort. now rewrite Hshort.
  - intros Hnorm' Hwords'.
    rewrite (checkSeed_mismatch (Str "lazy dog") "lazy dog" None None Hnorm' Hwords').
    + vm_compute. reflexivity.
    + vm_compute. discriminate.
Qed.

End Validation.

Lemma checkSeed_short_seed_hint_witness :
  checkSeed (lib := Fixture.lib) (Str "Lazy  dog ") None None
  = Returns {| valid := false;
               error := Some ("Invalid brain seed version, expecting 01 got c1."
                              ++ "  Brain seeds are about 12 words but this seed is"
                              ++ " only 2 words.")%string |}.
Proof.
  exact (proj1 (checkSeed_short_seed_hint (lib := Fixture.lib)
                  (Str "Lazy  dog ") "lazy dog" None None
                  eq_refl eq_refl ltac:(vm_compute; discriminate)
                  ltac:(vm_compute; lia))).
Defined.

Section NoThrow.

Context {lib : Bip39Checker}.

(** C4, as the code has it. Everything [checkSeed] runs is inside its
    [try]: it throws for no phrase, version or language. A phrase that
    [normalize] rejects (null, not a string), an unknown word, a failure of
    the word check itself (an unknown language included) and a mismatched
    tag all come back as [{valid: false, error: message}]. *)
Theorem checkSeed_never_throws (brainSeed : value) (version lang : option string) :
  let v := toLowerCase (or_default version DEFAULT_VERSION) in
  let languageKey := or_default lang "english" in
  (forall message, checkSeed brainSeed version lang <> Throws message)
  /\ (forall message,
        normalize brainSeed = Throws message ->
        checkSeed brainSeed version lang
        = Returns {| valid := false; error := Some message |})
  /\ (forall seed message,
        normalize brainSeed = Returns seed ->
        checkWords seed languageKey = Throws message ->
        checkSeed brainSeed version lang
        = Returns {| valid := false; error := Some message |})
  /\ (forall seed,
        normalize brainSeed = Returns seed ->
        checkWords seed languageKey = Returns false ->
        checkSeed brainSeed version lang
        = Returns {| valid := false; error := Some "Invalid brain seed" |})
  /\ (forall seed,
        normalize brainSeed = Returns seed ->
        checkWords seed languageKey = Returns true ->
        seedVersion seed (Some (Z.of_nat (String.length v))) <> v ->
        checkSeed brainSeed version lang
        = Returns {| valid := false; error := Some (mismatch_message seed v) |}).
Proof.
  intros v languageKey. repeat split.
  - intros message. rewrite checkSeed_cases.
    destruct (seed <- normalize brainSeed ;; _); discriminate.
  - intros message Hnorm. now rewrite checkSeed_cases, Hnorm.
  - intros seed message Hnorm Hwords.
    rewrite checkSeed_cases, Hnorm. cbn [Js.bind].
    rewrite assertValidSeed_cases. fold languageKey. now rewrite Hwords.
  - intros seed Hnorm Hwords.
    rewrite checkSeed_cases, Hnorm. cbn [Js.bind].
    rewrite assertValidSeed_cases. fold languageKey. now rewrite Hwords.
  - intros seed Hnorm Hwords Hsv. now apply checkSeed_mismatch.
Qed.

End NoThrow.

(** The four ordinary failures on the stand-in: no phrase, an empty phrase,
    an unknown word, a wrong tag. *)
Lemma checkSeed_never_throws_witness :
  checkSeed (lib := Fixture.lib) Null None None
  = Returns {| valid := false; error := Some "seed string required" |}
  /\ checkSeed (lib := Fixture.lib) (Str EmptyString) None None
     = Returns {| valid := false; error := Some "Invalid brain seed" |}
  /\ checkSeed (lib := Fixture.lib) (Str "lazy dog nonword") None None
     = Returns {| valid := false; error := Some "Invalid brain seed" |}
  /\ checkSeed (lib := Fixture.lib) (Str "lazy dog") (Some "ff") None
     = Returns {| valid := false; error := Some (mismatch_message "lazy dog" "ff") |}.
Proof.
  split; [|split; [|split]].
  - exact (proj1 (proj2 (checkSeed_never_throws (lib := Fixture.lib) Null None None))
                 _ eq_refl).
  - exact (proj1 (proj2 (proj2 (proj2
             (checkSeed_never_throws (lib := Fixture.lib) (Str EmptyString) None None))))
                 _ eq_refl eq_refl).
  - exact (proj1 (proj2 (proj2 (proj2
             (checkSeed_never_throws (lib := Fixture.lib) (Str "lazy dog nonword") None None))))
                 _ eq_refl eq_refl).
  - exact (proj2 (proj2 (proj2 (proj2
             (checkSeed_never_throws (lib := Fixture.lib) (Str "lazy dog") (Some "ff") None))))
                 _ eq_refl eq_refl ltac:(vm_compute; discriminate)).
Defined.

(** An unknown language key does not make [checkSeed] throw either: the
    error of the word-list lookup is caught and returned. *)
Lemma checkSeed_unknown_language_is_caught :
  validWordlist (Bip39Checker := Fixture.lib) "pig_latin"
  = Throws "Missing wordlist for language pig_latin"
  /\ checkSeed (lib := Fixture.lib) (Str "lazy dog") None (Some "pig_latin")
     = Returns {| valid := false;
                  error := Some "Missing wordlist for language pig_latin" |}
  /\ forall message,
       checkSeed (lib := Fixture.lib) (Str "lazy dog") None (Some "pig_latin")
       <> Throws message.
Proof.
  split; [reflexivity|]. split; [vm_compute; reflexivity|].
  intros message. vm_compute. discriminate.
Qed.

(** ** Generation: [randomBrainSeed] *)

Section Generation.

Context {lib : Bip39Checker}.

Lemma randomBrainSeed_mine (randomBytes : Z -> outcome (list byte)) (config : Config)
    (seedCallback : bool) :
  entropy_falsy (entropy config) = false ->
  randomBrainSeed randomBytes config seedCallback
  = (start <- mining_start randomBytes config ;;
     mine (Z.to_nat MAX_SAFE_INTEGER) 1 start None
          (toLowerCase (or_default (version config) DEFAULT_VERSION))
          (or_default (language config) "english")).
Proof.
  intros Hentropy. unfold randomBrainSeed, mining_start. rewrite Hentropy.
  destruct (randomBytes _) as [seedBuf| |];
    rewrite ?bind_Returns, ?bind_Throws, ?bind_Diverges; try reflexivity.
  destruct (option_map entropy_bytes (entropy config)) as [[e|]|];
    rewrite ?bind_Returns, ?bind_Throws; reflexivity.
Qed.


Lemma trim_bits_nonneg (seedBuf : list byte) (bits : Z) : 0 <= trim_bits seedBuf bits.
Proof.
  unfold trim_bits, shrn. apply Z.shiftr_nonneg.
  rewrite BN_of_buffer_big_endian. apply big_endian_range.
Qed.

(** A run of the loop that ends within [fuel] iterations is the run of
    [randomBrainSeed]. *)
Lemma randomBrainSeed_run (fuel : nat) (randomBytes : Z -> outcome (list byte))
    (config : Config) (seedCallback : bool) (start : Z) (r : outcome (option string)) :
  entropy_falsy (entropy config) = false ->
  mining_start randomBytes config = Returns start ->
  mine fuel 1 start None (toLowerCase (or_default (version config) DEFAULT_VERSION))
       (or_default (language config) "english") = r ->
  r <> Diverges ->
  (fuel <= Z.to_nat MAX_SAFE_INTEGER)%nat ->
  randomBrainSeed randomBytes config seedCallback = r.
Proof.
  intros Hentropy Hstart Hrun Hr Hfuel.
  rewrite randomBrainSeed_mine, Hstart, bind_Returns by assumption.
  remember (Z.to_nat MAX_SAFE_INTEGER) as fuel' eqn:Hfuel'.
  apply (mine_fuel_mono _ _ fuel); assumption.
Qed.

(** The guard makes the loop end. *)
Lemma randomBrainSeed_bounded (randomBytes : Z -> outcome (list byte))
    (config : Config) (seedCallback : bool) (start : Z) :
  mining_start randomBytes config = Returns start ->
  (forall i, start <= i ->
     bnToSeed i (or_default (language config) "english") <> Diverges) ->
  randomBrainSeed randomBytes config seedCallback <> Diverges.
Proof.
  intros Hstart Henc.
  destruct (entropy_falsy (entropy config)) eqn:Hentropy.
  - unfold randomBrainSeed. rewrite Hentropy. destruct (negb seedCallback); discriminate.
  - rewrite randomBrainSeed_mine, Hstart, bind_Returns by assumption.
    remember (Z.to_nat MAX_SAFE_INTEGER) as fuel eqn:Hfuel.
    remember (Z.to_nat (MAX_SAFE_INTEGER - 1)) as d eqn:Hd.
    apply (mine_fuel_enough _ _ d).
    + subst d. unfold MAX_SAFE_INTEGER. lia.
    + subst d fuel. unfold MAX_SAFE_INTEGER. lia.
    + lia.
    + exact Henc.
Qed.

(** No nonce gives the version: the loop ends at the guard and the phrase
    of the last candidate is returned. *)
Lemma randomBrainSeed_exhausted (randomBytes : Z -> outcome (list byte))
    (config : Config) (seedCallback : bool) (start : Z) (last : string) :
  let v := toLowerCase (or_default (version config) DEFAULT_VERSION) in
  let languageKey := or_default (language config) "english" in
  entropy_falsy (entropy config) = false ->
  mining_start randomBytes config = Returns start ->
  (forall k, 1 <= k < MAX_SAFE_INTEGER ->
     exists s, bnToSeed (start + triangular k) languageKey = Returns s
               /\ version_found s v = false) ->
  bnToSeed (start + triangular (MAX_SAFE_INTEGER - 1)) languageKey = Returns last ->
  randomBrainSeed randomBytes config seedCallback = Returns (Some last)
  /\ version_found last v = false.
Proof.
  intros v languageKey Hentropy Hstart Hnone Hlast. split.
  - rewrite randomBrainSeed_mine, Hstart, bind_Returns by assumption.
    fold v languageKey.
    remember (Z.to_nat MAX_SAFE_INTEGER) as fuel eqn:Hfuel.
    remember (Z.to_nat (MAX_SAFE_INTEGER - 1)) as d eqn:Hd.
    assert (Hdist : 1 + Z.of_nat d = MAX_SAFE_INTEGER)
      by (subst d; unfold MAX_SAFE_INTEGER; lia).
    assert (Hlt : (d < fuel)%nat) by (subst d fuel; unfold MAX_SAFE_INTEGER; lia).
    pose proof (mine_exhausted v languageKey d fuel 1 start None last
                  ltac:(lia) Hdist Hlt Hnone Hlast) as Hrun.
    replace (start + triangular (1 - 1)) with start in Hrun by (cbn; lia).
    rewrite Hrun.
    destruct d as [|d']; [|reflexivity].
    exfalso. clear - Hdist. unfold MAX_SAFE_INTEGER in Hdist. lia.
  - destruct (Hnone (MAX_SAFE_INTEGER - 1) ltac:(unfold MAX_SAFE_INTEGER; lia))
      as (s & Hs & Hnot).
    congruence.
Qed.

(** When some nonce gives the version, the phrase a run returns carries
    it. *)
Lemma mine_returns_found (version languageKey : string) (fuel : nat) :
  forall (nonce start : Z) (brainSeed : option string) (p : string),
    mine fuel nonce (start + triangular (nonce - 1)) brainSeed version languageKey
    = Returns (Some p) ->
    (exists n s, nonce <= n < MAX_SAFE_INTEGER
                 /\ bnToSeed (start + triangular n) languageKey = Returns s
                 /\ version_found s version = true) ->
    version_found p version = true.
Proof.
  induction fuel as [|fuel IH]; intros nonce start brainSeed p Hrun (n & s & Hn & Hs & Hfound);
    [discriminate|].
  rewrite mine_unfold in Hrun.
  destruct (Z.ltb_spec nonce MAX_SAFE_INTEGER); [|lia].
  rewrite <- Z.add_assoc, triangular_pred in Hrun.
  destruct (bnToSeed (start + triangular nonce) languageKey) as [seed| |] eqn:Hseed;
    cbn [Js.bind] in Hrun; try discriminate.
  destruct (version_found seed version) eqn:Hhere.
  - now injection Hrun as <-.
  - replace (start + triangular nonce)
      with (start + triangular (nonce + 1 - 1)) in Hrun by (f_equal; f_equal; lia).
    apply (IH _ _ _ _ Hrun). exists n, s. repeat split; try assumption; try lia.
    destruct (Z.eq_dec n nonce) as [->|]; [congruence|lia].
Qed.

(** A version outside the hexadecimal alphabet is never found. *)
Lemma version_found_not_hex (seed version : string) :
  all_chars is_lower_hex version = false -> version_found seed version = false.
Proof.
  intros Hv. unfold version_found.
  destruct (String.eqb_spec (seedVersion seed (Some (Z.of_nat (String.length version))))
                            version) as [Heq|_]; [|apply andb_false_r].
  rewrite <- Heq, seedVersion_lower_hex in Hv. discriminate.
Qed.

End Generation.

(** ** The version is compared in lowercase *)

Section Lowercase.

Context {lib : Bip39Checker}.

(** C9. Validation and generation both lowercase the version before they
    compare. A version and its lowercase form give the same [Validity] and
    the same run of [randomBrainSeed], and the version the mining loop
    searches for is the lowercase form. *)
Theorem version_compared_in_lowercase (brainSeed : value) (V : string)
    (lang : option string) (randomBytes : Z -> outcome (list byte))
    (config : Config) (seedCallback : bool) :
  checkSeed brainSeed (Some V) lang
  = checkSeed brainSeed (Some (toLowerCase V)) lang
  /\ randomBrainSeed randomBytes (with_version config V) seedCallback
     = randomBrainSeed randomBytes (with_version config (toLowerCase V)) seedCallback
  /\ randomBrainSeed randomBytes (with_version config V) seedCallback
     = if entropy_falsy (entropy config) then
         if negb seedCallback then
           Throws "Provide seedCallback parameter unless you plan to provide config.entropy"
         else Returns None
       else
         start <- mining_start randomBytes config ;;
         mine (Z.to_nat MAX_SAFE_INTEGER) 1 start None (toLowerCase V)
              (or_default (language config) "english").
Proof.
  split; [|split].
  - unfold checkSeed, assertValidSeed. cbn [or_default].
    now rewrite toLowerCase_idempotent.
  - unfold randomBrainSeed, with_version.
    cbn [entropy version bits language or_default].
    now rewrite toLowerCase_idempotent.
  - destruct (entropy_falsy (entropy config)) eqn:Hentropy.
    + unfold randomBrainSeed, with_version. cbn [entropy]. now rewrite Hentropy.
    + now rewrite randomBrainSeed_mine.
Qed.

End Lowercase.

(** ** Concrete runs on the stand-in *)

Lemma run_start_value : mining_start Fixture.zeroBytes Run.config = Returns Run.start.
Proof. vm_compute. reflexivity. Qed.

Lemma run_mined :
  mine (lib := Fixture.lib) 8 1 Run.start None "01" "english" = Returns (Some Run.generated).
Proof. vm_compute. reflexivity. Qed.

Lemma run_returned (seedCallback : bool) :
  randomBrainSeed (lib := Fixture.lib) Fixture.zeroBytes Run.config seedCallback
  = Returns (Some Run.generated).
Proof.
  apply (randomBrainSeed_run 8 _ _ _ Run.start).
  - reflexivity.
  - exact run_start_value.
  - exact run_mined.
  - discriminate.
  - unfold MAX_SAFE_INTEGER. lia.
Qed.

(** ** The end of the nonce range *)

Section Guard.

Context {lib : Bip39Checker}.

(** C3, as the code has it. The guard [nonce < Number.MAX_SAFE_INTEGER]
    bounds the loop: as long as every encoding returns, [randomBrainSeed]
    ends. When no nonce of the range gives the version it ends without an
    error: it returns the phrase of the last candidate, that of nonce
    [MAX_SAFE_INTEGER - 1], and that phrase does not carry the version. *)
Theorem mining_loop_ends_at_guard (randomBytes : Z -> outcome (list byte))
    (config : Config) (seedCallback : bool) (start : Z) (last : string) :
  let v := toLowerCase (or_default (version config) DEFAULT_VERSION) in
  let languageKey := or_default (language config) "english" in
  entropy_falsy (entropy config) = false ->
  mining_start randomBytes config = Returns start ->
  ((forall i, start <= i -> bnToSeed i languageKey <> Diverges) ->
   randomBrainSeed randomBytes config seedCallback <> Diverges)
  /\ ((forall k, 1 <= k < MAX_SAFE_INTEGER ->
         exists s, bnToSeed (start + triangular k) languageKey = Returns s
                   /\ version_found s v = false) ->
      bnToSeed (start + triangular (MAX_SAFE_INTEGER - 1)) languageKey = Returns last ->
      randomBrainSeed randomBytes config seedCallback = Returns (Some last)
      /\ version_found last v = false).
Proof.
  intros v languageKey Hentropy Hstart. split.
  - now apply randomBrainSeed_bounded.
  - now apply randomBrainSeed_exhausted.
Qed.

End Guard.

Lemma exhausted_start_value (v : string) :
  mining_start Fixture.zeroBytes (Exhausted.config v) = Returns Run.start.
Proof. vm_compute. reflexivity. Qed.

Lemma exhausted_last_candidate :
  bnToSeed (lib := Fixture.lib) (Run.start + triangular (MAX_SAFE_INTEGER - 1)) "english"
  = Returns Exhausted.last.
Proof. vm_compute. reflexivity. Qed.

Lemma stand_in_encodes (i : Z) :
  0 < i -> exists s, bnToSeed (lib := Fixture.lib) i "english" = Returns s.
Proof.
  intros Hi. apply (bnToSeed_returns (lib := Fixture.lib) "english" Fixture.english).
  - reflexivity.
  - cbn. lia.
  - exact Hi.
Qed.

Lemma stand_in_never_found (v : string) :
  all_chars is_lower_hex v = false ->
  forall k, 1 <= k < MAX_SAFE_INTEGER ->
    exists s, bnToSeed (lib := Fixture.lib) (Run.start + triangular k) "english" = Returns s
              /\ version_found s v = false.
Proof.
  intros Hv k Hk.
  pose proof (triangular_pos k ltac:(lia)) as Hpos.
  destruct (stand_in_encodes (Run.start + triangular k)) as (s & Hs).
  - unfold Run.start. lia.
  - exists s. split; [exact Hs|]. now apply version_found_not_hex.
Qed.

Lemma mining_loop_ends_at_guard_witness :
  randomBrainSeed (lib := Fixture.lib) Fixture.zeroBytes (Exhausted.config "G") false
  <> Diverges
  /\ randomBrainSeed (lib := Fixture.lib) Fixture.zeroBytes (Exhausted.config "G") false
     = Returns (Some Exhausted.last)
  /\ version_found Exhausted.last "g" = false.
Proof.
  destruct (mining_loop_ends_at_guard (lib := Fixture.lib) Fixture.zeroBytes
              (Exhausted.config "G") false Run.start Exhausted.last
              eq_refl (exhausted_start_value "G")) as (Hends & Hlast).
  split.
  - apply Hends. intros i Hi.
    destruct (stand_in_encodes i) as (s & Hs).
    + unfold Run.start in Hi. lia.
    + cbn [or_default language Exhausted.config]. rewrite Hs. discriminate.
  - apply Hlast.
    + apply (stand_in_never_found "g"). reflexivity.
    + exact exhausted_last_candidate.
Defined.

(** With the version [zz] the whole range is searched in vain; the call then
    returns a phrase whose tag is not the version, and throws nothing. *)
Lemma mining_exhausted_returns_unversioned_phrase :
  randomBrainSeed (lib := Fixture.lib) Fixture.zeroBytes (Exhausted.config "zz") false
  = Returns (Some Exhausted.last)
  /\ seedVersion Exhausted.last (Some 2) = "bd"
  /\ version_found Exhausted.last "zz" = false.
Proof.
  destruct (randomBrainSeed_exhausted (lib := Fixture.lib) Fixture.zeroBytes
              (Exhausted.config "zz") false Run.start Exhausted.last
              eq_refl (exhausted_start_value "zz")
              (stand_in_never_found "zz" eq_refl) exhausted_last_candidate)
    as (Hrun & Hnot).
  split; [exact Hrun|]. split; [vm_compute; reflexivity|exact Hnot].
Qed.

(** ** The candidates of the search *)

Section Candidates.

Context {lib : Bip39Checker}.

(** What the code searches: it returns the phrase of the first nonce [n]
    whose candidate carries the version, where the candidate of [n] is the
    start value plus [1 + 2 + ... + n]. *)
Lemma randomBrainSeed_first_match (randomBytes : Z -> outcome (list byte))
    (config : Config) (seedCallback : bool) (start n : Z) (seed : string) :
  let v := toLowerCase (or_default (version config) DEFAULT_VERSION) in
  let languageKey := or_default (language config) "english" in
  entropy_falsy (entropy config) = false ->
  mining_start randomBytes config = Returns start ->
  1 <= n < MAX_SAFE_INTEGER ->
  (forall k, 1 <= k < n ->
     exists s, bnToSeed (start + triangular k) languageKey = Returns s
               /\ version_found s v = false) ->
  bnToSeed (start + triangular n) languageKey = Returns seed ->
  version_found seed v = true ->
  randomBrainSeed randomBytes config seedCallback = Returns (Some seed).
Proof.
  intros v languageKey Hentropy Hstart Hn Hbefore Hseed Hfound.
  rewrite randomBrainSeed_mine, Hstart, bind_Returns by assumption.
  fold v languageKey.
  remember (Z.to_nat MAX_SAFE_INTEGER) as fuel eqn:Hfuel.
  replace start with (start + triangular (1 - 1)) at 1 by (cbn; lia).
  apply (mine_first_match v languageKey (Z.to_nat (n - 1)) fuel 1 start None n seed);
    try assumption; lia.
Qed.

End Candidates.

(** C1, where the code departs from it. On the run of [Run.config] the first
    three candidates fail under either reading. The fourth candidate of the
    specification, [start + 4], carries the version [01]; the code has by then
    added 1, 2, 3 and 4 to its running value, tests [start + 10], which
    carries the version too, and returns that other phrase. *)
Theorem mining_candidates_accumulate :
  entropyBn_after 4 Run.start = Run.start + 10
  /\ randomBrainSeed (lib := Fixture.lib) Fixture.zeroBytes Run.config false
     = Returns (Some Run.generated)
  /\ bnToSeed (lib := Fixture.lib) (Run.start + 10) "english" = Returns Run.generated
  /\ VersionMiner_spec (lib := Fixture.lib) 4 1 Run.start "01" "english"
     = Returns (Some Run.fourth)
  /\ bnToSeed (lib := Fixture.lib) (Run.start + 4) "english" = Returns Run.fourth
  /\ Run.generated <> Run.fourth.
Proof.
  split; [reflexivity|].
  split; [apply run_returned|].
  split; [vm_compute; reflexivity|].
  split; [vm_compute; reflexivity|].
  split; [vm_compute; reflexivity|].
  discriminate.
Qed.

(** * Further properties of the module *)

(** ** Stretching *)

(** PBKDF2 known answers: one iteration, and three iterations over two
    blocks. *)
Example pbkdf2_known_answers :
  Bytes.to_hex (firstn 8 (Pbkdf2.pbkdf2 (Bytes.of_string "password")
                                        (Bytes.of_string "salt") 1 64))
  = "867f70cf1ade02cf"
  /\ Bytes.to_hex (skipn 92 (Pbkdf2.pbkdf2 (Bytes.of_string "possible mother")
                                           (Bytes.of_string "mnemonicpassphrase") 3 100))
     = "ff5f22ec767e8b61".
Proof. split; vm_compute; reflexivity. Qed.

Lemma xor_bytes_length (a b : list byte) :
  length (Pbkdf2.xor_bytes a b) = Nat.min (length a) (length b).
Proof. unfold Pbkdf2.xor_bytes. now rewrite length_map, length_combine. Qed.

Lemma iterate_length (n : nat) :
  forall password u t, length t = 64%nat -> length (Pbkdf2.iterate n password u t) = 64%nat.
Proof.
  induction n as [|n IH]; intros password u t Ht; [exact Ht|].
  cbn [Pbkdf2.iterate]. apply IH.
  rewrite xor_bytes_length, hmac_sha512_length, Ht. reflexivity.
Qed.

Lemma block_length (password salt : list byte) (iterations i : nat) :
  length (Pbkdf2.block password salt iterations i) = 64%nat.
Proof. unfold Pbkdf2.block. apply iterate_length, hmac_sha512_length. Qed.

Lemma pbkdf2_length (password salt : list byte) (iterations keylen : nat) :
  length (Pbkdf2.pbkdf2 password salt iterations keylen) = keylen.
Proof.
  unfold Pbkdf2.pbkdf2. rewrite length_firstn.
  assert (Hlen : forall l, length (flat_map (Pbkdf2.block password salt iterations) l)
                           = (64 * length l)%nat).
  { induction l as [|i l IH]; [reflexivity|].
    cbn [flat_map]. rewrite length_app, block_length, IH. cbn [length]. lia. }
  rewrite Hlen, length_seq.
  pose proof (Nat.div_mod_eq (keylen + 63) 64) as Hdiv.
  pose proof (Nat.mod_upper_bound (keylen + 63) 64 ltac:(lia)). lia.
Qed.

Lemma bip39_mnemonicToSeed_length (mnemonic password : string) :
  length (bip39_mnemonicToSeed mnemonic password) = 64%nat.
Proof. unfold bip39_mnemonicToSeed. exact (pbkdf2_length _ _ 2048 64). Qed.

Section Stretched.

Context {lib : Bip39Checker}.

(** X12. [mnemonicToSeed] returns a key of exactly 64 bytes for every phrase
    [normalize] accepts, whatever the passphrase; a phrase [normalize]
    rejects (no phrase, not a string) makes it throw the error of
    [normalize], and nothing is stretched. A missing passphrase is the empty
    one. *)
Theorem mnemonicToSeed_shape (brainSeed : value) (passphrase : option string) :
  (forall seed, normalize brainSeed = Returns seed ->
     exists key, mnemonicToSeed brainSeed passphrase = Returns key
                 /\ length key = 64%nat)
  /\ (forall message, normalize brainSeed = Throws message ->
        mnemonicToSeed brainSeed passphrase = Throws message)
  /\ mnemonicToSeed brainSeed None = mnemonicToSeed brainSeed (Some EmptyString).
Proof.
  split; [|split].
  - intros seed Hnorm. unfold mnemonicToSeed. rewrite Hnorm, bind_Returns.
    eexists. split; [reflexivity|]. apply bip39_mnemonicToSeed_length.
  - intros message Hnorm. unfold mnemonicToSeed. now rewrite Hnorm.
  - reflexivity.
Qed.

End Stretched.

Lemma mnemonicToSeed_shape_witness :
  (exists key, mnemonicToSeed (lib := Fixture.lib) (Str "Lazy  dog ") (Some "passphrase")
               = Returns key /\ length key = 64%nat)
  /\ mnemonicToSeed (lib := Fixture.lib) Undefined None = Throws "seed string required".
Proof.
  destruct (mnemonicToSeed_shape (lib := Fixture.lib) (Str "Lazy  dog ") (Some "passphrase"))
    as (Hkey & _).
  destruct (mnemonicToSeed_shape (lib := Fixture.lib) Undefined None) as (_ & Hthrow & _).
  split; [exact (Hkey _ eq_refl) | exact (Hthrow _ eq_refl)].
Defined.

(** ** How [randomBrainSeed] fails *)

Section Failures.

Context {lib : Bip39Checker}.

(** X1. The errors of [randomBrainSeed], in the order the code meets them.
    Without entropy (none, or the empty string) nothing is drawn or hashed:
    the call throws when no callback is given and returns [undefined] when
    one is. Otherwise an error of the random source comes first. Next comes
    the error of the hash for an entropy that is neither text, buffer nor
    array: it is replaced by the module's own message when its message has
    the words [string or a buffer], and thrown again as it is otherwise.
    Last comes the error of the word-list lookup for an unknown language. *)
Theorem randomBrainSeed_failures (randomBytes : Z -> outcome (list byte))
    (config : Config) (seedCallback : bool) :
  let bytes := ceil_div (or_default (bits config) 132) 8 in
  let languageKey := or_default (language config) "english" in
  (entropy_falsy (entropy config) = true ->
   randomBrainSeed randomBytes config seedCallback
   = if seedCallback then Returns None
     else Throws "Provide seedCallback parameter unless you plan to provide config.entropy")
  /\ (forall message,
        entropy_falsy (entropy config) = false ->
        randomBytes bytes = Throws message ->
        randomBrainSeed randomBytes config seedCallback = Throws message)
  /\ (forall seedBuf message,
        entropy config = Some (EntropyOther message) ->
        randomBytes bytes = Returns seedBuf ->
        randomBrainSeed randomBytes config seedCallback
        = Throws (if includes "string or a buffer" message
                  then "entropy parameter must be a string, buffer, or array"
                  else message))
  /\ (forall start message,
        entropy_falsy (entropy config) = false ->
        mining_start randomBytes config = Returns start ->
        validWordlist languageKey = Throws message ->
        randomBrainSeed randomBytes config seedCallback = Throws message).
Proof.
  intros bytes languageKey. split; [|split; [|split]].
  - intros Hentropy. unfold randomBrainSeed. rewrite Hentropy.
    now destruct seedCallback.
  - intros message Hentropy Hrandom. unfold randomBrainSeed. fold bytes.
    now rewrite Hentropy, Hrandom.
  - intros seedBuf message Hentropy Hrandom. unfold randomBrainSeed. fold bytes.
    now rewrite Hentropy, Hrandom.
  - intros start message Hentropy Hstart Hwl.
    rewrite randomBrainSeed_mine, Hstart, bind_Returns by assumption.
    fold languageKey.
    remember (Z.to_nat MAX_SAFE_INTEGER) as fuel eqn:Hfuel.
    destruct fuel as [|fuel]; [unfold MAX_SAFE_INTEGER in Hfuel; lia|].
    rewrite mine_unfold.
    destruct (Z.ltb_spec 1 MAX_SAFE_INTEGER) as [_|H];
      [|unfold MAX_SAFE_INTEGER in H; lia].
    unfold bnToSeed, bnToSeed_words. rewrite Hwl. reflexivity.
Qed.

End Failures.

(** The failures the tests of the module provoke, and the call left to a
    callback. An entropy the hash rejects gives the module's message when the
    hash says [Data must be a string or a buffer], and the message of the
    hash when it words its error otherwise. *)
Lemma randomBrainSeed_failures_witness :
  randomBrainSeed (lib := Fixture.lib) Fixture.zeroBytes
    {| entropy := None; version := None; bits := None; language := None |} false
  = Throws "Provide seedCallback parameter unless you plan to provide config.entropy"
  /\ randomBrainSeed (lib := Fixture.lib) Fixture.zeroBytes
       {| entropy := Some (EntropyString EmptyString); version := None; bits := None;
          language := None |} true
     = Returns None
  /\ randomBrainSeed (lib := Fixture.lib) Fixture.zeroBytes
       {| entropy := Some (EntropyOther "Data must be a string or a buffer");
          version := None; bits := None; language := Some "pig_latin" |} false
     = Throws "entropy parameter must be a string, buffer, or array"
  /\ randomBrainSeed (lib := Fixture.lib) Fixture.zeroBytes
       {| entropy := Some (EntropyOther "Invalid data type");
          version := None; bits := None; language := Some "pig_latin" |} false
     = Throws "Invalid data type"
  /\ randomBrainSeed (lib := Fixture.lib) Fixture.zeroBytes
       {| entropy := Some (EntropyString "entropy"); version := None; bits := None;
          language := Some "pig_latin" |} false
     = Throws "Missing wordlist for language pig_latin".
Proof.
  split; [|split; [|split; [|split]]].
  - exact (proj1 (randomBrainSeed_failures (lib := Fixture.lib) Fixture.zeroBytes
                    {| entropy := None; version := None; bits := None; language := None |} false) eq_refl).
  - exact (proj1 (randomBrainSeed_failures (lib := Fixture.lib) Fixture.zeroBytes
                    {| entropy := Some (EntropyString EmptyString); version := None; bits := None;
          language := None |} true) eq_refl).
  - exact (proj1 (proj2 (proj2
             (randomBrainSeed_failures (lib := Fixture.lib) Fixture.zeroBytes
                {| entropy := Some (EntropyOther "Data must be a string or a buffer");
          version := None; bits := None; language := Some "pig_latin" |} false)))
             _ _ eq_refl eq_refl).
  - exact (proj1 (proj2 (proj2
             (randomBrainSeed_failures (lib := Fixture.lib) Fixture.zeroBytes
                {| entropy := Some (EntropyOther "Invalid data type");
          version := None; bits := None; language := Some "pig_latin" |} false)))
             _ _ eq_refl eq_refl).
  - refine (proj2 (proj2 (proj2
             (randomBrainSeed_failures (lib := Fixture.lib) Fixture.zeroBytes
                {| entropy := Some (EntropyString "entropy"); version := None; bits := None;
          language := Some "pig_latin" |} false)))
             _ _ eq_refl _ eq_refl).
    vm_compute. reflexivity.
Defined.

(** ** The start value *)

(** X3. The start value of the search has at most [bits] bits, and never
    more than the 256 bits of the SHA-256 digest it is cut from: a strength
    above 256 is not delivered. *)
Theorem mining_start_at_most_256_bits (randomBytes : Z -> outcome (list byte))
    (config : Config) (start : Z) :
  0 <= or_default (bits config) 132 ->
  mining_start randomBytes config = Returns start ->
  0 <= start < 2 ^ Z.min (or_default (bits config) 132) 256.
Proof.
  intros Hbits Hstart.
  destruct (Z.le_gt_cases (or_default (bits config) 132) 256) as [Hle|Hgt].
  - rewrite Z.min_l by lia. now apply (mining_start_range randomBytes).
  - rewrite Z.min_r by lia. unfold mining_start in Hstart.
    destruct (randomBytes _) as [seedBuf| |]; rewrite ?bind_Returns in Hstart;
      try discriminate.
    destruct (option_map entropy_bytes (entropy config)) as [[e|]|]; try discriminate.
    injection Hstart as <-. split; [apply trim_bits_nonneg|].
    unfold trim_bits, shrn, combine_entropy, slice0.
    set (b := or_default (bits config) 132) in *.
    assert (Hc : 32 < ceil_div b 8).
    { unfold ceil_div. assert (33 <= (b + 8 - 1) / 8) by (apply Z.div_le_lower_bound; lia).
      lia. }
    destruct (Z.ltb_spec (ceil_div b 8) 0); [lia|].
    rewrite firstn_all2 by (rewrite sha256_length; lia).
    rewrite BN_of_buffer_big_endian.
    pose proof (big_endian_range (Sha2.sha256 (e ++ seedBuf))) as Hrange.
    rewrite sha256_length in Hrange.
    assert (Hsh : 0 <= ceil_div b 8 * 8 - b).
    { unfold ceil_div.
      pose proof (Z.mod_pos_bound (b + 8 - 1) 8 ltac:(lia)).
      pose proof (Z.div_mod (b + 8 - 1) 8 ltac:(lia)). lia. }
    rewrite Z.shiftr_div_pow2 by lia.
    apply Z.le_lt_trans with (big_endian (Sha2.sha256 (e ++ seedBuf))).
    + apply Z.div_le_upper_bound; [apply Z.pow_pos_nonneg; lia|].
      assert (0 < 2 ^ (ceil_div b 8 * 8 - b)) by (apply Z.pow_pos_nonneg; lia).
      nia.
    + change (Z.of_nat 32) with 32 in Hrange.
      change (2 ^ 256) with (256 ^ 32). lia.
Qed.

Lemma mining_start_at_most_256_bits_witness :
  0 <= Run.start < 2 ^ 132.
Proof.
  exact (mining_start_at_most_256_bits Fixture.zeroBytes Run.config Run.start
           ltac:(cbn; lia) run_start_value).
Defined.

(** ** What [randomBrainSeed] returns *)

Section Returned.

Context {lib : Bip39Checker}.
Variables (version language : string).

(** Started below the guard, with encodings that all return, the loop
    returns the phrase of the first nonce that gives the version, or that of
    the last nonce of the range. *)
Lemma mine_returns_first_or_last (d : nat) :
  forall (fuel : nat) (nonce start : Z) (brainSeed : option string),
    1 <= nonce ->
    nonce + Z.of_nat (S d) = MAX_SAFE_INTEGER ->
    (S d < fuel)%nat ->
    (forall k, nonce <= k < MAX_SAFE_INTEGER ->
       exists s, bnToSeed (start + triangular k) language = Returns s) ->
    exists n p,
      nonce <= n < MAX_SAFE_INTEGER
      /\ bnToSeed (start + triangular n) language = Returns p
      /\ mine fuel nonce (start + triangular (nonce - 1)) brainSeed version language
         = Returns (Some p)
      /\ (forall k, nonce <= k < n ->
            exists s, bnToSeed (start + triangular k) language = Returns s
                      /\ version_found s version = false)
      /\ (version_found p version = true
          \/ (n = MAX_SAFE_INTEGER - 1 /\ version_found p version = false)).
Proof.
  induction d as [|d IH]; intros fuel nonce start brainSeed Hnonce Hd Hfuel Henc;
    (destruct fuel as [|fuel]; [lia|]); rewrite mine_unfold;
    (destruct (Z.ltb_spec nonce MAX_SAFE_INTEGER); [|lia]);
    rewrite <- Z.add_assoc, triangular_pred;
    destruct (Henc nonce ltac:(lia)) as (s & Hs); rewrite Hs, bind_Returns;
    destruct (version_found s version) eqn:Hfound.
  - exists nonce, s. repeat split; try assumption; try lia. now left.
  - exists nonce, s. repeat split; try assumption; try lia.
    + destruct fuel as [|fuel]; [lia|]. rewrite mine_unfold.
      destruct (Z.ltb_spec (nonce + 1) MAX_SAFE_INTEGER); [lia|reflexivity].
    + right. split; [lia|assumption].
  - exists nonce, s. repeat split; try assumption; try lia. now left.
  - replace (start + triangular nonce)
      with (start + triangular (nonce + 1 - 1)) by (f_equal; f_equal; lia).
    destruct (IH fuel (nonce + 1) start (Some s) ltac:(lia) ltac:(lia) ltac:(lia))
      as (n & p & Hn & Hp & Hrun & Hbefore & Hend).
    { intros k Hk. apply Henc. lia. }
    exists n, p. repeat split; try assumption; try lia.
    intros k Hk. destruct (Z.eq_dec k nonce) as [->|Hne].
    + exists s. now split.
    + apply Hbefore. lia.
Qed.

End Returned.

Section FirstMatch.

Context {lib : Bip39Checker}.

(** X2. With an entropy the hash accepts, a random source that returns and a
    language whose list has two words or more, [randomBrainSeed] always
    returns a phrase, never [undefined] and never an error. The phrase is
    that of some nonce [n]: no earlier nonce gives the version, and either
    [n] gives it or [n] is the last nonce of the range. *)
Theorem randomBrainSeed_returns_first_or_last (randomBytes : Z -> outcome (list byte))
    (config : Config) (seedCallback : bool) (start : Z) (wordlist : list string) :
  let v := toLowerCase (or_default (version config) DEFAULT_VERSION) in
  let languageKey := or_default (language config) "english" in
  entropy_falsy (entropy config) = false ->
  mining_start randomBytes config = Returns start ->
  validWordlist languageKey = Returns wordlist ->
  2 <= Z.of_nat (length wordlist) ->
  exists n p,
    1 <= n < MAX_SAFE_INTEGER
    /\ bnToSeed (start + triangular n) languageKey = Returns p
    /\ randomBrainSeed randomBytes config seedCallback = Returns (Some p)
    /\ (forall k, 1 <= k < n ->
          exists s, bnToSeed (start + triangular k) languageKey = Returns s
                    /\ version_found s v = false)
    /\ (version_found p v = true
        \/ (n = MAX_SAFE_INTEGER - 1 /\ version_found p v = false)).
Proof.
  intros v languageKey Hentropy Hstart Hwl HB.
  rewrite randomBrainSeed_mine, Hstart, bind_Returns by assumption.
  fold v languageKey.
  remember (Z.to_nat MAX_SAFE_INTEGER) as fuel eqn:Hfuel.
  remember (Z.to_nat (MAX_SAFE_INTEGER - 2)) as d eqn:Hd.
  assert (Hdist : 1 + Z.of_nat (S d) = MAX_SAFE_INTEGER)
    by (subst d; unfold MAX_SAFE_INTEGER; lia).
  assert (Hlt : (S d < fuel)%nat) by (subst d fuel; unfold MAX_SAFE_INTEGER; lia).
  assert (Hpos : 0 <= start).
  { unfold mining_start in Hstart.
    destruct (randomBytes _) as [seedBuf| |]; rewrite ?bind_Returns in Hstart;
      try discriminate.
    destruct (option_map entropy_bytes (entropy config)) as [[e|]|]; try discriminate.
    injection Hstart as <-. apply trim_bits_nonneg. }
  destruct (mine_returns_first_or_last v languageKey d fuel 1 start None
              ltac:(lia) Hdist Hlt) as (n & p & Hn & Hp & Hrun & Hbefore & Hend).
  { intros k Hk. apply (bnToSeed_returns languageKey wordlist); try assumption.
    pose proof (triangular_pos k ltac:(lia)). lia. }
  replace (start + triangular (1 - 1)) with start in Hrun by (cbn; lia).
  exists n, p. repeat split; try assumption; lia.
Qed.

End FirstMatch.

Lemma randomBrainSeed_returns_first_or_last_witness :
  exists n p,
    1 <= n < MAX_SAFE_INTEGER
    /\ bnToSeed (lib := Fixture.lib) (Run.start + triangular n) "english" = Returns p
    /\ randomBrainSeed (lib := Fixture.lib) Fixture.zeroBytes Run.config false
       = Returns (Some p).
Proof.
  destruct (randomBrainSeed_returns_first_or_last (lib := Fixture.lib)
              Fixture.zeroBytes Run.config false Run.start Fixture.english
              eq_refl run_start_value eq_refl ltac:(vm_compute; discriminate))
    as (n & p & Hn & Hp & Hrun & _).
  exists n, p. repeat split; try assumption; lia.
Defined.

(** ** Entropy given as an array of integers *)

Lemma to_Z_of_Z (z : Z) : Bytes.to_Z (Bytes.of_Z z) = z mod 256.
Proof.
  unfold Bytes.of_Z, Bytes.to_Z.
  pose proof (Z.mod_pos_bound z 256 ltac:(lia)) as Hm.
  destruct (Byte.of_N (Z.to_N (z mod 256))) as [b|] eqn:Hb.
  - apply Byte.to_of_N in Hb. rewrite Hb. lia.
  - apply Byte.of_N_None_iff in Hb. lia.
Qed.

Lemma int32_bytes_value (x : Z) : big_endian (rev (int32_bytes x)) = x mod 2 ^ 32.
Proof.
  unfold int32_bytes. rewrite rev_involutive.
  pose proof (Z.mod_pos_bound x (2 ^ 32) ltac:(lia)) as Hm.
  set (y := x mod 2 ^ 32) in *.
  cbn [Bytes.be_bytes seq map big_endian length Nat.sub Z.of_nat Pos.of_succ_nat
       Pos.succ Z.mul Pos.mul Pos.add].
  rewrite !to_Z_of_Z, !Z.shiftr_div_pow2 by lia.
  change (2 ^ 32) with 4294967296 in Hm.
  change (2 ^ 24) with 16777216. change (2 ^ 16) with 65536.
  change (2 ^ 8) with 256. change (2 ^ 0) with 1.
  change (256 ^ 3) with 16777216. change (256 ^ 2) with 65536.
  change (256 ^ 1) with 256. change (256 ^ 0) with 1.
  rewrite Z.div_1_r.
  Z.div_mod_to_equations. lia.
Qed.

Lemma int32_bytes_length (x : Z) : length (int32_bytes x) = 4%nat.
Proof. unfold int32_bytes. now rewrite length_rev, be_bytes_length. Qed.

Lemma int32_bytes_injective (x y : Z) :
  int32_bytes x = int32_bytes y -> x mod 2 ^ 32 = y mod 2 ^ 32.
Proof. intros H. rewrite <- (int32_bytes_value x), <- (int32_bytes_value y). now rewrite H. Qed.

Lemma int32_bytes_mod (x y : Z) :
  x mod 2 ^ 32 = y mod 2 ^ 32 -> int32_bytes x = int32_bytes y.
Proof. intros H. unfold int32_bytes. now rewrite H. Qed.

(** X4. An array of integers enters the hash as four bytes an element, and
    these bytes keep the value of every element as a 32-bit integer: two
    arrays give the same bytes exactly when their elements agree modulo
    [2 ^ 32]. An element above 255 is not cut to a byte. *)
Theorem entropy_array_keeps_int32 (ints1 ints2 : list Z) :
  (exists b, entropy_bytes (EntropyArray ints1) = Some b
             /\ length b = (4 * length ints1)%nat)
  /\ (entropy_bytes (EntropyArray ints1) = entropy_bytes (EntropyArray ints2)
      <-> map (fun x => x mod 2 ^ 32) ints1 = map (fun x => x mod 2 ^ 32) ints2).
Proof.
  split.
  - eexists. split; [reflexivity|].
    induction ints1 as [|x l IH]; [reflexivity|].
    cbn [flat_map length]. rewrite length_app, int32_bytes_length, IH. lia.
  - cbn [entropy_bytes]. split.
    + intros [= H]. revert ints2 H.
      induction ints1 as [|x l1 IH]; intros [|y l2] H; cbn [flat_map map] in *.
      * reflexivity.
      * apply (f_equal (@length byte)) in H.
        rewrite length_app, int32_bytes_length in H. discriminate.
      * apply (f_equal (@length byte)) in H.
        rewrite length_app, int32_bytes_length in H. discriminate.
      * assert (Hhead : int32_bytes x = int32_bytes y).
        { apply (f_equal (firstn 4)) in H.
          rewrite !firstn_app, !int32_bytes_length, Nat.sub_diag, !firstn_O in H.
          rewrite !app_nil_r, !firstn_all2 in H by (rewrite int32_bytes_length; lia).
          exact H. }
        rewrite Hhead in H. apply app_inv_head in H.
        f_equal; [now apply int32_bytes_injective | now apply IH].
    + intros H. f_equal. revert ints2 H.
      induction ints1 as [|x l1 IH]; intros [|y l2] H; cbn [flat_map map] in *;
        try discriminate; [reflexivity|].
      injection H as Hx Hl. f_equal; [|now apply IH].
      apply int32_bytes_mod. exact Hx.
Qed.

(** [256] and [-1] as [Int32Array] bytes; [256] is not taken for [0]. *)
Lemma entropy_array_keeps_int32_witness :
  entropy_bytes (EntropyArray [256; -1])
  = Some [x00; x01; x00; x00; xff; xff; xff; xff]
  /\ entropy_bytes (EntropyArray [256]) <> entropy_bytes (EntropyArray [0]).
Proof.
  split; [reflexivity|].
  intros Heq. apply (proj2 (entropy_array_keeps_int32 [256] [0])) in Heq. discriminate.
Defined.

(** ** The edges of [bnToSeed] *)

Section Edges.

Context {lib : Bip39Checker}.

(** X5. The edges of [bnToSeed]. Zero encodes to the empty phrase, whatever
    the list; an unknown language throws the error of the lookup; an empty
    list throws on any other number; with a list of one word the loop never
    ends on any other number, however long it is followed. *)
Theorem bnToSeed_edges (language : string) (i : Z) :
  (forall wordlist, validWordlist language = Returns wordlist ->
     bnToSeed 0 language = Returns EmptyString)
  /\ (forall message, validWordlist language = Throws message ->
        bnToSeed i language = Throws message)
  /\ (i <> 0 -> validWordlist language = Returns [] ->
      bnToSeed i language = Throws "Assertion failed")
  /\ (forall w, i <> 0 -> validWordlist language = Returns [w] ->
        bnToSeed i language = Diverges
        /\ forall fuel words, bnToSeed_loop fuel [w] 1 i words = Diverges).
Proof.
  split; [|split; [|split]].
  - intros wordlist Hwl. unfold bnToSeed, bnToSeed_words. now rewrite Hwl.
  - intros message Hwl. unfold bnToSeed, bnToSeed_words. now rewrite Hwl.
  - intros Hi Hwl. unfold bnToSeed, bnToSeed_words. rewrite Hwl, bind_Returns.
    unfold bnToSeed_fuel. rewrite Nat.add_comm. cbn [Nat.add bnToSeed_loop length Z.of_nat].
    destruct (Z.eqb_spec i 0); [contradiction|reflexivity].
  - intros w Hi Hwl. split.
    + unfold bnToSeed, bnToSeed_words. rewrite Hwl, bind_Returns.
      cbn [length Z.of_nat Pos.of_succ_nat]. now rewrite bnToSeed_loop_one_word.
    + intros fuel words. now apply bnToSeed_loop_one_word.
Qed.

End Edges.

Lemma bnToSeed_edges_witness :
  bnToSeed (lib := Fixture.lib) 0 "french" = Returns EmptyString
  /\ bnToSeed (lib := Fixture.lib) 7 "pig_latin"
     = Throws "Missing wordlist for language pig_latin".
Proof.
  destruct (bnToSeed_edges (lib := Fixture.lib) "french" 0) as (Hzero & _).
  destruct (bnToSeed_edges (lib := Fixture.lib) "pig_latin" 7) as (_ & Hthrow & _).
  split; [exact (Hzero _ eq_refl) | exact (Hthrow _ eq_refl)].
Defined.

(** ** Reading a phrase back *)

Lemma split_no_space (w : string) : no_space w = true -> split w = [w].
Proof.
  induction w as [|c w IH]; [reflexivity|].
  cbn [no_space split]. intros H. apply andb_true_iff in H as [Hc Hw].
  apply negb_true_iff in Hc. rewrite Hc, (IH Hw). reflexivity.
Qed.

Lemma split_word_space (w rest : string) :
  no_space w = true -> split (w ++ " " ++ rest) = w :: split rest.
Proof.
  induction w as [|c w IH]; [reflexivity|].
  cbn [no_space]. intros H. apply andb_true_iff in H as [Hc Hw].
  apply negb_true_iff in Hc.
  change (String c w ++ " " ++ rest)%string with (String c (w ++ " " ++ rest)).
  cbn [split]. rewrite Hc, (IH Hw). reflexivity.
Qed.

Lemma split_join (words : list string) :
  words <> [] -> forallb no_space words = true -> split (join words) = words.
Proof.
  induction words as [|w [|w' rest] IH]; intros Hne Hwords; [contradiction| |].
  - cbn in *. apply andb_true_iff in Hwords as [Hw _]. now apply split_no_space.
  - cbn [forallb] in Hwords. apply andb_true_iff in Hwords as [Hw Hrest].
    change (join (w :: w' :: rest)) with (w ++ " " ++ join (w' :: rest))%string.
    rewrite split_word_space by assumption. f_equal. apply IH; [discriminate|assumption].
Qed.

Lemma index_of_nth (wordlist : list string) :
  NoDup wordlist ->
  forall n, (n < length wordlist)%nat ->
    index_of (nth n wordlist EmptyString) wordlist = Some (Z.of_nat n).
Proof.
  induction 1 as [|w l Hnotin Hnodup IH]; intros n Hn; [cbn in Hn; lia|].
  destruct n as [|n]; cbn [nth index_of].
  - now rewrite String.eqb_refl.
  - cbn [length] in Hn.
    destruct (String.eqb_spec (nth n l EmptyString) w) as [Heq|_].
    + exfalso. apply Hnotin. rewrite <- Heq. apply nth_In. lia.
    + rewrite IH by lia. f_equal. lia.
Qed.

Lemma element_in_range (wordlist : list string) (idx : Z) :
  0 <= idx < Z.of_nat (length wordlist) ->
  element wordlist idx = nth (Z.to_nat idx) wordlist EmptyString
  /\ In (element wordlist idx) wordlist.
Proof.
  intros Hidx. unfold element. destruct (Z.ltb_spec idx 0); [lia|].
  split; [reflexivity|]. apply nth_In. lia.
Qed.

Lemma words_value_radix (wordlist : list string) :
  NoDup wordlist ->
  2 <= Z.of_nat (length wordlist) ->
  forall (m : nat) (v : Z),
    0 <= v < Z.of_nat (length wordlist) ^ Z.of_nat m ->
    words_value wordlist (map (radix_word wordlist (Z.of_nat (length wordlist)) v) (seq 0 m))
    = Some v.
Proof.
  intros Hnodup HB. set (B := Z.of_nat (length wordlist)) in *.
  induction m as [|m IH]; intros v Hv.
  - cbn in *. f_equal. lia.
  - rewrite radix_words_cons by lia. cbn [words_value].
    pose proof (Z.mod_pos_bound v B ltac:(lia)) as Hmod.
    destruct (element_in_range wordlist (v mod B) Hmod) as [-> _].
    rewrite index_of_nth, Z2Nat.id by (try assumption; lia).
    rewrite IH.
    + f_equal. fold B. pose proof (Z.div_mod v B ltac:(lia)). lia.
    + rewrite Nat2Z.inj_succ, Z.pow_succ_r in Hv by lia. split.
      * apply Z.div_pos; lia.
      * apply Z.div_lt_upper_bound; lia.
Qed.

Lemma radix_words_known (wordlist : list string) (v : Z) (m : nat) :
  2 <= Z.of_nat (length wordlist) ->
  Forall (fun w => In w wordlist)
         (map (radix_word wordlist (Z.of_nat (length wordlist)) v) (seq 0 m)).
Proof.
  intros HB. apply Forall_forall. intros w Hw.
  apply in_map_iff in Hw as (k & <- & _). unfold radix_word.
  apply element_in_range, Z.mod_pos_bound. lia.
Qed.

Section ReadBack.

Context {lib : Bip39Checker}.

(** The phrase of a positive number is the join of its digit words, and
    splitting it gives these words back. *)
Lemma bnToSeed_split (language : string) (wordlist : list string) (v : Z) (p : string) :
  validWordlist language = Returns wordlist ->
  forallb no_space wordlist = true ->
  2 <= Z.of_nat (length wordlist) ->
  0 < v ->
  bnToSeed v language = Returns p ->
  exists count : nat,
    Z.of_nat (length wordlist) ^ (Z.of_nat count - 1) <= v
      < Z.of_nat (length wordlist) ^ Z.of_nat count
    /\ split p = map (radix_word wordlist (Z.of_nat (length wordlist)) v) (seq 0 count).
Proof.
  intros Hwl Hplain HB Hv Hp.
  destruct (bnToSeed_words_digits language wordlist v Hwl HB Hv) as (count & Hcount & Hrun).
  exists count. split; [exact Hcount|].
  unfold bnToSeed in Hp. rewrite Hrun, bind_Returns in Hp. injection Hp as <-.
  apply split_join.
  - destruct count as [|c]; [cbn in Hcount; lia|discriminate].
  - apply forallb_forall. intros w Hw.
    pose proof (radix_words_known wordlist v count HB) as Hknown.
    rewrite Forall_forall in Hknown. rewrite forallb_forall in Hplain.
    apply Hplain, Hknown, Hw.
Qed.

Lemma bnToSeed_reads_back (language : string) (wordlist : list string) (v : Z) (p : string) :
  validWordlist language = Returns wordlist ->
  NoDup wordlist ->
  forallb no_space wordlist = true ->
  2 <= Z.of_nat (length wordlist) ->
  0 < v ->
  bnToSeed v language = Returns p ->
  words_value wordlist (split p) = Some v.
Proof.
  intros Hwl Hnodup Hplain HB Hv Hp.
  destruct (bnToSeed_split language wordlist v p Hwl Hplain HB Hv Hp)
    as (count & Hcount & ->).
  apply words_value_radix; try assumption. lia.
Qed.

(** X6. Over a list of two or more distinct words without spaces, the
    phrase [bnToSeed] returns for a positive number reads back to that
    number: split on spaces, its words are all words of the list, their
    positions are the radix digits of the number, least significant first, and
    their count [m] is the one of the number ([B ^ (m - 1) <= v < B ^ m]). *)
Theorem bnToSeed_phrase_reads_back (language : string) (wordlist : list string)
    (v : Z) (p : string) :
  let B := Z.of_nat (length wordlist) in
  validWordlist language = Returns wordlist ->
  NoDup wordlist ->
  forallb no_space wordlist = true ->
  2 <= B ->
  0 < v ->
  bnToSeed v language = Returns p ->
  words_value wordlist (split p) = Some v
  /\ (forall w, In w (split p) -> In w wordlist)
  /\ B ^ (Z.of_nat (length (split p)) - 1) <= v < B ^ Z.of_nat (length (split p)).
Proof.
  intros B Hwl Hnodup Hplain HB Hv Hp.
  split; [now apply (bnToSeed_reads_back language)|].
  destruct (bnToSeed_split language wordlist v p Hwl Hplain HB Hv Hp)
    as (count & Hcount & Hsplit).
  rewrite Hsplit. split.
  - pose proof (radix_words_known wordlist v count HB) as Hknown.
    rewrite Forall_forall in Hknown. exact Hknown.
  - rewrite length_map, length_seq. exact Hcount.
Qed.

End ReadBack.

Lemma stand_in_words_distinct : NoDup Fixture.english.
Proof.
  unfold Fixture.english.
  repeat (constructor; [cbn; intros H; repeat (destruct H as [H|H]; [discriminate|]);
                        exact H|]).
  constructor.
Qed.

Lemma bnToSeed_phrase_reads_back_witness :
  words_value Fixture.english (split Run.generated) = Some (Run.start + 10)
  /\ length (split Run.generated) = 33%nat.
Proof.
  destruct (bnToSeed_phrase_reads_back (lib := Fixture.lib) "english" Fixture.english
              (Run.start + 10) Run.generated eq_refl stand_in_words_distinct eq_refl
              ltac:(vm_compute; discriminate) ltac:(vm_compute; reflexivity)
              ltac:(vm_compute; reflexivity)) as (Hvalue & _).
  split; [exact Hvalue | vm_compute; reflexivity].
Defined.

(** ** No two numbers share a phrase *)

Lemma triangular_lt (a b : Z) : 0 <= a < b -> triangular a < triangular b.
Proof.
  intros [Ha Hb].
  replace b with (a + 1 + Z.of_nat (Z.to_nat (b - a - 1))) by lia.
  induction (Z.to_nat (b - a - 1)) as [|k IH].
  - rewrite Z.add_0_r, triangular_succ. lia.
  - rewrite Nat2Z.inj_succ.
    replace (a + 1 + Z.succ (Z.of_nat k)) with (a + 1 + Z.of_nat k + 1) by lia.
    rewrite triangular_succ. lia.
Qed.

Section Injective.

Context {lib : Bip39Checker}.

(** X7. Over a list of two or more distinct words without spaces, two
    positive numbers with the same phrase are equal. The candidates of the
    mining loop grow with the nonce, so the loop never tests a phrase
    twice. *)
Theorem bnToSeed_injective (language : string) (wordlist : list string) :
  validWordlist language = Returns wordlist ->
  NoDup wordlist ->
  forallb no_space wordlist = true ->
  2 <= Z.of_nat (length wordlist) ->
  (forall v1 v2 p,
     0 < v1 -> 0 < v2 ->
     bnToSeed v1 language = Returns p -> bnToSeed v2 language = Returns p -> v1 = v2)
  /\ (forall start n1 n2 p1 p2,
        0 <= start -> 1 <= n1 < n2 ->
        bnToSeed (start + triangular n1) language = Returns p1 ->
        bnToSeed (start + triangular n2) language = Returns p2 ->
        p1 <> p2).
Proof.
  intros Hwl Hnodup Hplain HB.
  assert (Hinj : forall v1 v2 p,
             0 < v1 -> 0 < v2 ->
             bnToSeed v1 language = Returns p -> bnToSeed v2 language = Returns p ->
             v1 = v2).
  { intros v1 v2 p Hv1 Hv2 Hp1 Hp2.
    pose proof (bnToSeed_reads_back language wordlist v1 p Hwl Hnodup Hplain HB Hv1 Hp1) as H1.
    pose proof (bnToSeed_reads_back language wordlist v2 p Hwl Hnodup Hplain HB Hv2 Hp2) as H2.
    congruence. }
  split; [exact Hinj|].
  intros start n1 n2 p1 p2 Hstart Hn Hp1 Hp2 Heq. subst p2.
  pose proof (triangular_pos n1 ltac:(lia)).
  pose proof (triangular_lt n1 n2 ltac:(lia)).
  pose proof (Hinj (start + triangular n1) (start + triangular n2) p1
                   ltac:(lia) ltac:(lia) Hp1 Hp2). lia.
Qed.

End Injective.

Lemma bnToSeed_injective_witness : Run.generated <> Run.fourth.
Proof.
  destruct (bnToSeed_injective (lib := Fixture.lib) "english" Fixture.english
              eq_refl stand_in_words_distinct eq_refl ltac:(vm_compute; discriminate))
    as (Hinj & _).
  intros Heq.
  assert (Run.start + 10 = Run.start + 4); [|lia].
  apply (Hinj _ _ Run.generated); try (unfold Run.start; lia).
  - vm_compute. reflexivity.
  - rewrite Heq. vm_compute. reflexivity.
Defined.

(** ** When [checkSeed] accepts *)

Lemma toLowerCase_length (s : string) : String.length (toLowerCase s) = String.length s.
Proof. induction s as [|c s IH]; [reflexivity|]. cbn. now rewrite IH. Qed.

Lemma toLowerCase_substring0 (s : string) (k : nat) :
  toLowerCase (String.substring 0 k s) = String.substring 0 k (toLowerCase s).
Proof.
  revert s; induction k as [|k IH]; intros [|c s]; cbn; try reflexivity.
  now rewrite IH.
Qed.

Lemma substring0_twice (s : string) (a b : nat) :
  String.substring 0 a (String.substring 0 b s) = String.substring 0 (Nat.min a b) s.
Proof.
  revert a b; induction s as [|c s IH]; intros [|a] [|b]; cbn; try reflexivity.
  now rewrite IH.
Qed.

Section Accepted.

Context {lib : Bip39Checker}.

Lemma checkSeed_valid_inv (brainSeed : value) (version lang : option string) :
  let v := toLowerCase (or_default version DEFAULT_VERSION) in
  let languageKey := or_default lang "english" in
  checkSeed brainSeed version lang = Returns {| valid := true; error := None |}
  <-> exists seed,
        normalize brainSeed = Returns seed
        /\ checkWords seed languageKey = Returns true
        /\ seedVersion seed (Some (Z.of_nat (String.length v))) = v.
Proof.
  intros v languageKey. rewrite checkSeed_cases. split.
  - destruct (normalize brainSeed) as [seed| |] eqn:Hnorm; rewrite ?bind_Returns;
      try discriminate.
    rewrite assertValidSeed_cases. cbn [or_default]. fold v languageKey.
    destruct (checkWords seed languageKey) as [[|]| |] eqn:Hwords; cbn [Js.bind negb];
      try discriminate.
    destruct (String.eqb_spec (seedVersion seed (Some (Z.of_nat (String.length v)))) v)
      as [Htag|_]; [|discriminate].
    intros _. exists seed. repeat split; try assumption; reflexivity.
  - intros (seed & Hnorm & Hwords & Htag).
    rewrite Hnorm, bind_Returns, assertValidSeed_cases. cbn [or_default].
    fold v languageKey. rewrite Hwords, bind_Returns. cbn [negb].
    now rewrite Htag, String.eqb_refl.
Qed.

(** X8. [checkSeed] answers [{valid: true, error: null}] exactly when
    [normalize] accepts the phrase, [checkWords] knows all the words of the
    normalized phrase, and the tag of the normalized phrase, cut to the
    length of the version, is the lowercased version. Whatever it answers,
    [error] is [null] exactly when [valid] is true. *)
Theorem checkSeed_valid_iff (brainSeed : value) (version lang : option string) :
  let v := toLowerCase (or_default version DEFAULT_VERSION) in
  let languageKey := or_default lang "english" in
  (checkSeed brainSeed version lang = Returns {| valid := true; error := None |}
   <-> exists seed,
         normalize brainSeed = Returns seed
         /\ checkWords seed languageKey = Returns true
         /\ seedVersion seed (Some (Z.of_nat (String.length v))) = v)
  /\ (forall validity,
        checkSeed brainSeed version lang = Returns validity ->
        (valid validity = true <-> error validity = None)).
Proof.
  intros v languageKey. split; [apply checkSeed_valid_inv|].
  intros validity. rewrite checkSeed_cases.
  destruct (seed <- normalize brainSeed ;; _) as [[]|message|]; intros [= <-]; cbn;
    split; congruence.
Qed.

(** X9. A phrase valid for a version is valid for every prefix of that
    version: the tag is cut to the length of the version it is compared
    with. *)
Theorem checkSeed_valid_for_prefix (brainSeed : value) (v : string)
    (lang : option string) (k : nat) :
  checkSeed brainSeed (Some v) lang = Returns {| valid := true; error := None |} ->
  checkSeed brainSeed (Some (String.substring 0 k v)) lang
  = Returns {| valid := true; error := None |}.
Proof.
  intros Hvalid. apply checkSeed_valid_inv in Hvalid as (seed & Hnorm & Hwords & Htag).
  apply checkSeed_valid_inv. exists seed. split; [exact Hnorm|]. split; [exact Hwords|].
  cbn [or_default] in *. rewrite toLowerCase_substring0.
  set (lv := toLowerCase v) in *.
  rewrite substring0_length. rewrite <- Htag at 2.
  unfold seedVersion, substring0. cbn [or_default]. rewrite !Nat2Z.id.
  now rewrite substring0_twice.
Qed.

(** X10. A version that, once lowercased, has a character outside
    [0-9a-f], or that is longer than the 128 characters of the digest, is
    never accepted, whatever the phrase. *)
Theorem checkSeed_rejects_impossible_version (brainSeed : value) (v : string)
    (lang : option string) (validity : Validity) :
  all_chars is_lower_hex (toLowerCase v) = false \/ (128 < String.length v)%nat ->
  checkSeed brainSeed (Some v) lang = Returns validity ->
  valid validity = false.
Proof.
  intros Hv Hrun. destruct validity as [[|] e]; [|reflexivity]. exfalso.
  assert (He : e = None).
  { rewrite checkSeed_cases in Hrun.
    destruct (seed <- normalize brainSeed ;; _) as [[]| |]; congruence. }
  subst e. apply checkSeed_valid_inv in Hrun as (seed & _ & _ & Htag).
  cbn [or_default] in Htag. destruct Hv as [Hhex|Hlong].
  - rewrite <- Htag, seedVersion_lower_hex in Hhex. discriminate.
  - apply (f_equal String.length) in Htag.
    rewrite seedVersion_length, toLowerCase_length, Nat2Z.id in Htag. lia.
Qed.

(** X11. The empty version checks nothing. [checkSeed] then accepts every
    phrase [normalize] accepts and [checkWords] knows, and [randomBrainSeed]
    returns the phrase of its very first candidate, the start value plus
    one. *)
Theorem empty_version_checks_nothing (brainSeed : value) (lang : option string)
    (randomBytes : Z -> outcome (list byte)) (config : Config) (seedCallback : bool) :
  (checkSeed brainSeed (Some EmptyString) lang = Returns {| valid := true; error := None |}
   <-> exists seed,
         normalize brainSeed = Returns seed
         /\ checkWords seed (or_default lang "english") = Returns true)
  /\ (forall start p,
        version config = Some EmptyString ->
        entropy_falsy (entropy config) = false ->
        mining_start randomBytes config = Returns start ->
        bnToSeed (start + 1) (or_default (language config) "english") = Returns p ->
        truthy p = true ->
        randomBrainSeed randomBytes config seedCallback = Returns (Some p)).
Proof.
  split.
  - rewrite checkSeed_valid_inv. cbn [or_default toLowerCase String.length Z.of_nat].
    split; intros (seed & Hnorm & Hrest); exists seed; (split; [exact Hnorm|]).
    + apply Hrest.
    + split; [exact Hrest|reflexivity].
  - intros start p Hversion Hentropy Hstart Hp Htruthy.
    apply (randomBrainSeed_first_match randomBytes config seedCallback start 1 p);
      try assumption.
    + unfold MAX_SAFE_INTEGER. lia.
    + intros k Hk. lia.
    + rewrite Hversion. cbn [or_default toLowerCase]. unfold version_found.
      rewrite Htruthy. reflexivity.
Qed.

End Accepted.

Lemma checkSeed_valid_iff_witness :
  checkSeed (lib := Fixture.lib) (Str "Animal  Piano") (Some "E8") (Some "french")
  = Returns {| valid := true; error := None |}.
Proof.
  apply (proj1 (checkSeed_valid_iff (lib := Fixture.lib) (Str "Animal  Piano") (Some "E8")
                  (Some "french"))).
  exists "animal piano".
  split; [reflexivity|]. split; [reflexivity|]. vm_compute. reflexivity.
Defined.

Lemma checkSeed_valid_for_prefix_witness :
  checkSeed (lib := Fixture.lib) (Str Run.generated) (Some "0") None
  = Returns {| valid := true; error := None |}
  /\ checkSeed (lib := Fixture.lib) (Str Run.generated) (Some EmptyString) None
     = Returns {| valid := true; error := None |}.
Proof.
  assert (Hvalid : checkSeed (lib := Fixture.lib) (Str Run.generated) (Some "01") None
                   = Returns {| valid := true; error := None |})
    by (vm_compute; reflexivity).
  split.
  - exact (checkSeed_valid_for_prefix (lib := Fixture.lib) _ "01" None 1 Hvalid).
  - exact (checkSeed_valid_for_prefix (lib := Fixture.lib) _ "01" None 0 Hvalid).
Defined.

(** [c1dx]: the tag of [lazy dog] begins with [c1d], but no tag has an [x]. *)
Lemma checkSeed_rejects_impossible_version_witness :
  exists validity,
    checkSeed (lib := Fixture.lib) (Str "lazy dog") (Some "c1dx") None = Returns validity
    /\ valid validity = false.
Proof.
  eexists. split; [vm_compute; reflexivity|].
  apply (checkSeed_rejects_impossible_version (lib := Fixture.lib)
           (Str "lazy dog") "c1dx" None).
  - left. reflexivity.
  - vm_compute. reflexivity.
Defined.

Lemma empty_version_checks_nothing_witness :
  randomBrainSeed (lib := Fixture.lib) Fixture.zeroBytes (Exhausted.config EmptyString) false
  = Returns (Some ("easy " ++ Run.tail)%string)
  /\ checkSeed (lib := Fixture.lib) (Str "lazy dog") (Some EmptyString) None
     = Returns {| valid := true; error := None |}.
Proof.
  destruct (empty_version_checks_nothing (lib := Fixture.lib) (Str "lazy dog") None
              Fixture.zeroBytes (Exhausted.config EmptyString) false) as (Hcheck & Hrun).
  split.
  - refine (Hrun Run.start ("easy " ++ Run.tail)%string eq_refl eq_refl
                 (exhausted_start_value _) _ eq_refl).
    vm_compute. reflexivity.
  - apply Hcheck. exists "lazy dog". split; reflexivity.
Defined.

(** ** Generation and validation agree *)








Section Agreement.

Context {lib : Bip39Checker}.


End Agreement.




